(** * ServerMD: the MD server of the MESSAGE package (src/MESSAGE/server_md.cpp)

    A shallow embedding of [ServerMD::loop], [ServerMD::box_change] and
    [ServerMD::send_fev], and the properties of the session protocol proved
    about it.

    - C [int] values are [Z] with the 32-bit wrap-around written out
      ([wrap32]); C [double] values are the kernel's binary64 floats.
    - Every process of the group runs the same code on the same message, in
      lockstep.  One process is a [Proc]; the group is a list of them, indexed
      by rank; the collective calls ([MPI_Allreduce], the force engine) act on
      the whole list.
    - [error->all] ends the run: a computation is a state-and-error monad
      whose failure keeps the message and the state left behind.
    - The classes the file only calls into (Domain, Comm, Neighbor, Integrate,
      AtomVec, ...) are the fields of the class [Lammps]; the theorems hold for
      every instance.  *)

From Stdlib Require Import ZArith Lia String PrimFloat.
From stdpp Require Import base list gmap.

Local Open Scope Z_scope.

(** ** Numbers *)

Definition double : Type := float.
Definition vec3 : Type := (double * double * double)%type.

Definition INT_MAX : Z := 2147483647.

(** An [int] result brought back into the 32-bit signed range. *)
Definition wrap32 (z : Z) : Z := (z + 2147483648) mod 4294967296 - 2147483648.

(** [x != 0.0] on doubles (true on NaN, false on -0.0). *)
Definition ne0 (x : double) : bool := negb (PrimFloat.eqb x 0%float).

(** ** Buffers

    A pointer into a message buffer or an atom array is a list read by index.
    The source never checks an index; a read past the end gives the default
    here (0 or 0.0). *)

Definition rd (l : list Z) (i : Z) : Z :=
  if i <? 0 then 0 else nth (Z.to_nat i) l 0.

Definition rdf (l : list double) (i : Z) : double :=
  if i <? 0 then 0%float else nth (Z.to_nat i) l 0%float.

(** [&buf[j]] used as a 3-vector. *)
Definition at3 (l : list double) (j : Z) : vec3 :=
  (rdf l j, rdf l (j + 1), rdf l (j + 2)).

(** [a[i] = v] on a per-atom array; the array grows as far as the index. *)
Definition aset {A} (d : A) (i : Z) (v : A) (l : list A) : list A :=
  let n := Z.to_nat i in
  if decide (n < length l)%nat then <[n := v]> l
  else l ++ replicate (n - length l)%nat d ++ [v].

(** ** Enumerations of the file *)

Definition SETUP : Z := 1.
Definition STEP : Z := 2.

Definition DIM : Z := 1.
Definition PERIODICITY : Z := 2.
Definition ORIGIN : Z := 3.
Definition BOX : Z := 4.
Definition NATOMS : Z := 5.
Definition NTYPES : Z := 6.
Definition TYPES : Z := 7.
Definition COORDS : Z := 8.
Definition CHARGE : Z := 9.

Definition FORCES : Z := 1.
Definition ENERGY : Z := 2.
Definition VIRIAL : Z := 3.

(** ** Messages (the CSlib interface)

    [cs->recv(nfield,fieldID,fieldtype,fieldlen)] returns the message id and
    the list of field ids; [cs->unpack_int(id)] and [cs->unpack(id)] give the
    payload of a field by its id.  [fieldtype] and [fieldlen] are never read. *)

Record Msg := mkMsg {
  msgID : Z;
  fieldID : list Z;
  m_dim : Z;                    (* cs->unpack_int(DIM) *)
  m_periodicity : list Z;       (* (int * ) cs->unpack(PERIODICITY) *)
  m_origin : list double;       (* (double * ) cs->unpack(ORIGIN) *)
  m_box : list double;          (* (double * ) cs->unpack(BOX) *)
  m_natoms : Z;                 (* cs->unpack_int(NATOMS) *)
  m_ntypes : Z;                 (* cs->unpack_int(NTYPES) *)
  m_types : list Z;             (* (int * ) cs->unpack(TYPES) *)
  m_coords : list double;       (* (double * ) cs->unpack(COORDS) *)
  m_charge : list double        (* (double * ) cs->unpack(CHARGE) *)
}.

(** What one process hands to CSlib for one outgoing message. *)
Inductive Field : Type :=
| pack_parallel (id ftype nlocal : Z) (ids : list Z) (nper : Z) (data : list double)
| pack_double (id : Z) (value : double)
| pack (id ftype flen : Z) (data : list double).

Record Send := mkSend {
  send_msgID : Z;
  send_nfield : Z;
  send_fields : list Field
}.

(** ** The state the file reads and writes *)

Module Domain.
Record t := mk {
  dimension : Z;
  periodicity : Z * Z * Z;
  triclinic : Z;
  boxlo : vec3;
  boxhi : vec3;
  xy : double;
  xz : double;
  yz : double
}.
End Domain.

Module Atom.
Record t := mk {
  nlocal : Z;
  nghost : Z;
  natoms : Z;
  ntypes : Z;
  q_flag : Z;
  tag : list Z;
  type : list Z;
  x : list vec3;
  q : list double;
  f : list vec3;
  map_tab : gmap Z Z           (* id -> local index, as map_set left it *)
}.
End Atom.

Module Pair.
Record t := mk {
  eng_vdwl : double;
  eng_coul : double;
  virial : list double         (* virial[6] *)
}.
End Pair.

Module KSpace.
Record t := mk {
  virial : list double         (* virial[6] *)
}.
End KSpace.

Module Force.
Record t := mk {
  pair : Pair.t;
  kspace : option KSpace.t     (* NULL when no long-range solver is defined *)
}.
End Force.

Module Update.
Record t := mk {
  whichflag : Z
}.
End Update.

(** One process.  [other] is the state of the classes the file never looks
    into (sub-box bounds, process grid, neighbor lists, ...). *)
Record Proc (Other : Type) := mkProc {
  domain : Domain.t;
  atom : Atom.t;
  force : Force.t;
  update : Update.t;
  other : Other
}.
Arguments mkProc {Other}.
Arguments domain {Other}.
Arguments atom {Other}.
Arguments force {Other}.
Arguments update {Other}.
Arguments other {Other}.

(** The group's side of CSlib and MPI: the processes by rank, and what each
    of them has sent so far (one entry per outgoing message, one [Send] per
    rank in it). *)
Record World (Other : Type) := mkWorld {
  procs : list (Proc Other);
  outbox : list (list Send)
}.
Arguments mkWorld {Other}.
Arguments procs {Other}.
Arguments outbox {Other}.

(** ** Errors: [error->all(FLERR,msg)] *)

Inductive outcome (S A : Type) : Type :=
| Done (a : A) (s : S)
| Fatal (msg : string) (s : S).
Arguments Done {S A}.
Arguments Fatal {S A}.

Definition M (S A : Type) : Type := S -> outcome S A.

Definition ret {S A} (a : A) : M S A := fun s => Done a s.

Definition bind {S A B} (c : M S A) (k : A -> M S B) : M S B :=
  fun s => match c s with
           | Done a s' => k a s'
           | Fatal msg s' => Fatal msg s'
           end.

Definition error_all {S A} (msg : string) : M S A := fun s => Fatal msg s.

Definition get {S} : M S S := fun s => Done s s.

Definition modify {S} (g : S -> S) : M S unit := fun s => Done tt (g s).

Notation "x <- c ;; k" := (bind c (fun x => k))
  (at level 100, c at next level, right associativity).
Notation "c ;;; k" := (bind c (fun _ => k))
  (at level 100, right associativity).

(** A check that has no state to change: the message of the error, or a value. *)
Inductive res (A : Type) : Type :=
| Ok (a : A)
| Err (msg : string).
Arguments Ok {A}.
Arguments Err {A}.

Definition lift {S A} (r : res A) : M S A :=
  fun s => match r with Ok a => Done a s | Err msg => Fatal msg s end.

(** Field updates. *)

Definition set_domain {Other} (d : Domain.t) (p : Proc Other) : Proc Other :=
  mkProc d (atom p) (force p) (update p) (other p).

Definition set_atom {Other} (a : Atom.t) (p : Proc Other) : Proc Other :=
  mkProc (domain p) a (force p) (update p) (other p).

Definition set_update {Other} (u : Update.t) (p : Proc Other) : Proc Other :=
  mkProc (domain p) (atom p) (force p) u (other p).

Definition set_procs {Other} (ps : list (Proc Other)) (w : World Other) : World Other :=
  mkWorld ps (outbox w).

Definition atom_set_counts (nlocal nghost : Z) (a : Atom.t) : Atom.t :=
  Atom.mk nlocal nghost (Atom.natoms a) (Atom.ntypes a) (Atom.q_flag a)
          (Atom.tag a) (Atom.type a) (Atom.x a) (Atom.q a) (Atom.f a) (Atom.map_tab a).

Definition atom_set_natoms (natoms : Z) (a : Atom.t) : Atom.t :=
  Atom.mk (Atom.nlocal a) (Atom.nghost a) natoms (Atom.ntypes a) (Atom.q_flag a)
          (Atom.tag a) (Atom.type a) (Atom.x a) (Atom.q a) (Atom.f a) (Atom.map_tab a).

Definition atom_set_tag (i v : Z) (a : Atom.t) : Atom.t :=
  Atom.mk (Atom.nlocal a) (Atom.nghost a) (Atom.natoms a) (Atom.ntypes a) (Atom.q_flag a)
          (aset 0 i v (Atom.tag a)) (Atom.type a) (Atom.x a) (Atom.q a) (Atom.f a)
          (Atom.map_tab a).

Definition atom_set_q (i : Z) (v : double) (a : Atom.t) : Atom.t :=
  Atom.mk (Atom.nlocal a) (Atom.nghost a) (Atom.natoms a) (Atom.ntypes a) (Atom.q_flag a)
          (Atom.tag a) (Atom.type a) (Atom.x a) (aset 0%float i v (Atom.q a)) (Atom.f a)
          (Atom.map_tab a).

Definition vec0 : vec3 := (0%float, 0%float, 0%float).

Definition atom_set_x (i : Z) (v : vec3) (a : Atom.t) : Atom.t :=
  Atom.mk (Atom.nlocal a) (Atom.nghost a) (Atom.natoms a) (Atom.ntypes a) (Atom.q_flag a)
          (Atom.tag a) (Atom.type a) (aset vec0 i v (Atom.x a)) (Atom.q a) (Atom.f a)
          (Atom.map_tab a).

(** [x[m]] *)
Definition atom_x (a : Atom.t) (m : Z) : vec3 :=
  if m <? 0 then vec0 else nth (Z.to_nat m) (Atom.x a) vec0.

(** [atom->map(id)]: the local index of a global id, -1 when the id is not
    in the map. *)
Definition atom_map (a : Atom.t) (id : Z) : Z :=
  default (-1) (Atom.map_tab a !! id).

(** Modelled from the spec: [AtomVec::create_atom] is defined in the atom
    styles, not in this file.  Spec 4.4: the atom is inserted locally; it
    takes the next free local index, with its type and position, and the
    local count goes up by one. *)
Definition create_atom (itype : Z) (coord : vec3) (a : Atom.t) : Atom.t :=
  let n := Atom.nlocal a in
  Atom.mk (n + 1) (Atom.nghost a) (Atom.natoms a) (Atom.ntypes a) (Atom.q_flag a)
          (Atom.tag a) (aset 0 n itype (Atom.type a)) (aset vec0 n coord (Atom.x a))
          (Atom.q a) (Atom.f a) (Atom.map_tab a).

(** ** The classes the file calls into

    Methods of Domain, Comm and Atom act on the calling process; [lmp->init],
    the integrator's [setup_minimal], [comm->forward_comm] and
    [neighbor->decide] communicate, so they act on the group.  [ownatom] and
    [closest_image] read the box and what Domain and Comm derived from it,
    never the atom arrays. *)

Class Lammps (Other : Type) := {
  set_initial_box : Proc Other -> Proc Other;
  set_global_box : Proc Other -> Proc Other;
  set_proc_grid : Proc Other -> Proc Other;
  set_local_box : Proc Other -> Proc Other;
  ownatom : Domain.t -> Other -> Z -> vec3 -> bool;
  closest_image : Domain.t -> Other -> vec3 -> vec3 -> vec3;
  map_init : Proc Other -> Proc Other;
  map_set : Proc Other -> Proc Other;
  lmp_init : list (Proc Other) -> list (Proc Other);
  setup_minimal : Z -> list (Proc Other) -> list (Proc Other);
  forward_comm : list (Proc Other) -> list (Proc Other);
  neighbor_decide : list (Proc Other) -> Z
}.

(** ** [ServerMD::box_change] *)

Definition box_change (origin box : list double) (d : Domain.t) : Domain.t :=
  Domain.mk (Domain.dimension d) (Domain.periodicity d) (Domain.triclinic d)
    (rdf origin 0, rdf origin 1, rdf origin 2)
    (PrimFloat.add (rdf origin 0) (rdf box 0),
     PrimFloat.add (rdf origin 1) (rdf box 4),
     PrimFloat.add (rdf origin 2) (rdf box 8))
    (rdf box 3) (rdf box 6) (rdf box 7).

(** The box geometry the handlers install: bounds and tilt factors. *)
Definition box_geometry (d : Domain.t) : vec3 * vec3 * double * double * double :=
  (Domain.boxlo d, Domain.boxhi d, Domain.xy d, Domain.xz d, Domain.yz d).

(** The test both handlers make before [box_change]. *)
Definition tilted (box : list double) : bool :=
  ne0 (rdf box 3) || ne0 (rdf box 6) || ne0 (rdf box 7).

Definition triclinic_check (d : Domain.t) (box : list double) : res unit :=
  if tilted box && (Domain.triclinic d =? 0)
  then Err "Server md is not initialized for a triclinic box"
  else Ok tt.

(** ** SETUP: the field loop and the checks after it *)

Module SetupVars.
Record t := mk {
  dim : Z;
  periodicity : option (list Z);
  natoms : Z;
  ntypes : Z;
  origin : option (list double);
  box : option (list double);
  types : option (list Z);
  coords : option (list double);
  charge : option (list double)
}.
Definition init : t := mk 0 None (-1) (-1) None None None None None.
End SetupVars.

Definition periodicity_differs (periodicity : list Z) (d : Domain.t) : bool :=
  let '(p0, p1, p2) := Domain.periodicity d in
  negb (rd periodicity 0 =? p0) || negb (rd periodicity 1 =? p1)
  || negb (rd periodicity 2 =? p2).

(** The client's three flags equal the server's, axis by axis. *)
Definition periodicity_matches (m : Msg) (d : Domain.t) : Prop :=
  (rd (m_periodicity m) 0, rd (m_periodicity m) 1, rd (m_periodicity m) 2)
  = Domain.periodicity d.

(** One turn of the loop over [fieldID].  In the PERIODICITY test the source
    text has no operator between its second and third comparison; the three
    comparisons are read as one disjunction, as the first two are joined. *)
Definition setup_field (d : Domain.t) (a : Atom.t) (m : Msg)
    (v : SetupVars.t) (fid : Z) : res SetupVars.t :=
  let 'SetupVars.mk dim periodicity natoms ntypes origin box types coords charge := v in
  if fid =? DIM then
    let dim := m_dim m in
    if negb (dim =? Domain.dimension d)
    then Err "Server md dimension mis-match with client"
    else Ok (SetupVars.mk dim periodicity natoms ntypes origin box types coords charge)
  else if fid =? PERIODICITY then
    let periodicity := m_periodicity m in
    if periodicity_differs periodicity d
    then Err "Server md periodicity mis-match with client"
    else Ok (SetupVars.mk dim (Some periodicity) natoms ntypes origin box types coords charge)
  else if fid =? ORIGIN then
    Ok (SetupVars.mk dim periodicity natoms ntypes (Some (m_origin m)) box types coords charge)
  else if fid =? BOX then
    Ok (SetupVars.mk dim periodicity natoms ntypes origin (Some (m_box m)) types coords charge)
  else if fid =? NATOMS then
    let natoms := m_natoms m in
    if wrap32 (3 * natoms) >? INT_MAX
    then Err "Server md max atoms is 1/3 of 2^31"
    else Ok (SetupVars.mk dim periodicity natoms ntypes origin box types coords charge)
  else if fid =? NTYPES then
    let ntypes := m_ntypes m in
    if negb (ntypes =? Atom.ntypes a)
    then Err "Server md ntypes mis-match with client"
    else Ok (SetupVars.mk dim periodicity natoms ntypes origin box types coords charge)
  else if fid =? TYPES then
    Ok (SetupVars.mk dim periodicity natoms ntypes origin box (Some (m_types m)) coords charge)
  else if fid =? COORDS then
    Ok (SetupVars.mk dim periodicity natoms ntypes origin box types (Some (m_coords m)) charge)
  else if fid =? CHARGE then
    Ok (SetupVars.mk dim periodicity natoms ntypes origin box types coords (Some (m_charge m)))
  else Err "Server md setup field unknown".

Fixpoint setup_fields (d : Domain.t) (a : Atom.t) (m : Msg)
    (v : SetupVars.t) (ids : list Z) : res SetupVars.t :=
  match ids with
  | [] => Ok v
  | fid :: ids' =>
      match setup_field d a m v fid with
      | Ok v' => setup_fields d a m v' ids'
      | Err msg => Err msg
      end
  end.

(** What SETUP works with once every check has passed. *)
Module SetupArgs.
Record t := mk {
  natoms : Z;
  origin : list double;
  box : list double;
  types : list Z;
  coords : list double;
  charge : option (list double)
}.
End SetupArgs.

(** The three tests between the field loop and [box_change]. *)
Definition setup_checks (d : Domain.t) (a : Atom.t) (v : SetupVars.t) : res SetupArgs.t :=
  match SetupVars.periodicity v, SetupVars.origin v, SetupVars.box v,
        SetupVars.types v, SetupVars.coords v with
  | Some _, Some origin, Some box, Some types, Some coords =>
      if (SetupVars.dim v =? 0) || (SetupVars.natoms v <? 0) || (SetupVars.ntypes v <? 0)
      then Err "Required server md setup field not received"
      else if bool_decide (is_Some (SetupVars.charge v)) && (Atom.q_flag a =? 0)
      then Err "Server md does not define atom attribute q"
      else match triclinic_check d box with
           | Err msg => Err msg
           | Ok _ => Ok (SetupArgs.mk (SetupVars.natoms v) origin box types coords
                                      (SetupVars.charge v))
           end
  | _, _, _, _, _ => Err "Required server md setup field not received"
  end.

(** Everything SETUP does before it touches the state. *)
Definition setup_validate (d : Domain.t) (a : Atom.t) (m : Msg) : res SetupArgs.t :=
  match setup_fields d a m SetupVars.init (fieldID m) with
  | Ok v => setup_checks d a v
  | Err msg => Err msg
  end.

(** ** STEP: the field loop *)

Module StepVars.
Record t := mk {
  coords : option (list double);
  origin : option (list double);
  box : option (list double)
}.
Definition init : t := mk None None None.
End StepVars.

Definition step_field (m : Msg) (v : StepVars.t) (fid : Z) : res StepVars.t :=
  let 'StepVars.mk coords origin box := v in
  if fid =? COORDS then Ok (StepVars.mk (Some (m_coords m)) origin box)
  else if fid =? ORIGIN then Ok (StepVars.mk coords (Some (m_origin m)) box)
  else if fid =? BOX then Ok (StepVars.mk coords origin (Some (m_box m)))
  else Err "Server md step field unknown".

Fixpoint step_fields (m : Msg) (v : StepVars.t) (ids : list Z) : res StepVars.t :=
  match ids with
  | [] => Ok v
  | fid :: ids' =>
      match step_field m v fid with
      | Ok v' => step_fields m v' ids'
      | Err msg => Err msg
      end
  end.

(** ** Collective reductions

    [MPI_Allreduce(send,recv,count,type,MPI_SUM,world)]: the argument holds
    the send buffer of every rank, the result the receive buffer of every
    rank.  The sum is taken in rank order. *)

Definition isum (l : list Z) : Z := foldr Z.add 0 l.

Definition MPI_Allreduce_SUM_INT (send : list Z) : list Z :=
  map (fun _ => wrap32 (isum send)) send.

Definition fsum (l : list double) : double :=
  match l with
  | [] => 0%float
  | e :: l' => fold_left PrimFloat.add l' e
  end.

Definition MPI_Allreduce_SUM_DOUBLE (count : Z) (send : list (list double))
    : list (list double) :=
  map (fun _ => map (fun k => fsum (map (fun b => rdf b k) send)) (seqZ 0 count)) send.

Section ServerMD.

Context {Other : Type} `{!Lammps Other}.

Local Abbreviation Proc := (Proc Other).
Local Abbreviation World := (World Other).

(** Runs a piece of the handler on every process of the group.  A process that
    fails stops where it is; the group's error is that of the lowest rank
    that failed. *)
Fixpoint each {A} (c : M Proc A) (ps : list Proc) : outcome (list Proc) (list A) :=
  match ps with
  | [] => Done [] []
  | p :: ps' =>
      match c p, each c ps' with
      | Done a p', Done r ps'' => Done (a :: r) (p' :: ps'')
      | Done _ p', Fatal msg ps'' => Fatal msg (p' :: ps'')
      | Fatal msg p', Done _ ps'' => Fatal msg (p' :: ps'')
      | Fatal msg p', Fatal _ ps'' => Fatal msg (p' :: ps'')
      end
  end.

(** The same, each rank with its own argument (its local variables). *)
Fixpoint each_with {A B} (c : A -> M Proc B) (args : list A) (ps : list Proc)
    : outcome (list Proc) (list B) :=
  match ps, args with
  | p :: ps', a :: args' =>
      match c a p, each_with c args' ps' with
      | Done b p', Done r ps'' => Done (b :: r) (p' :: ps'')
      | Done _ p', Fatal msg ps'' => Fatal msg (p' :: ps'')
      | Fatal msg p', Done _ ps'' => Fatal msg (p' :: ps'')
      | Fatal msg p', Fatal _ ps'' => Fatal msg (p' :: ps'')
      end
  | _, _ => Done [] ps
  end.

Definition on_procs {A} (c : list Proc -> outcome (list Proc) A) : M World A :=
  fun w => match c (procs w) with
           | Done a ps => Done a (set_procs ps w)
           | Fatal msg ps => Fatal msg (set_procs ps w)
           end.

Definition collective (g : list Proc -> list Proc) : M World unit :=
  modify (fun w => set_procs (g (procs w)) w).

(** ** SETUP on one process, up to the count reduction *)

(** One turn of the loop that adds the atoms of the process's sub-box.  The
    state is the process and the local variable [nlocal]. *)
Definition scatter_step (a : SetupArgs.t) (st : Proc * Z) (i : Z) : Proc * Z :=
  let '(p, nlocal) := st in
  let xi := at3 (SetupArgs.coords a) (wrap32 (3 * i)) in
  if negb (ownatom (domain p) (other p) (i + 1) xi) then st
  else
    let a1 := create_atom (rd (SetupArgs.types a) i) xi (atom p) in
    let a2 := atom_set_tag nlocal (i + 1) a1 in
    let a3 := match SetupArgs.charge a with
              | Some charge => atom_set_q nlocal (rdf charge i) a2
              | None => a2
              end in
    (set_atom a3 p, nlocal + 1).

Definition scatter (a : SetupArgs.t) (p : Proc) : Proc :=
  fst (fold_left (scatter_step a) (seqZ 0 (SetupArgs.natoms a)) (p, 0)).

(** [box_change] and the four calls after it. *)
Definition setup_box (a : SetupArgs.t) (p : Proc) : Proc :=
  let p := set_domain (box_change (SetupArgs.origin a) (SetupArgs.box a) (domain p)) p in
  set_local_box (set_proc_grid (set_global_box (set_initial_box p))).

Definition clear_atoms (p : Proc) : Proc :=
  set_atom (atom_set_counts 0 0 (atom p)) p.

(** From the field loop to the end of the atom loop; returns [natoms]. *)
Definition setup_local (m : Msg) : M Proc Z :=
  p <- get ;;
  a <- lift (setup_validate (domain p) (atom p) m) ;;
  modify (setup_box a) ;;;
  modify clear_atoms ;;;
  modify (scatter a) ;;;
  ret (SetupArgs.natoms a).

(** From the count test to [update->whichflag = 1]; the argument is the
    process's [natoms] and the [ntotal] it received. *)
Definition setup_count (nn : Z * Z) : M Proc unit :=
  let '(natoms, ntotal) := nn in
  if negb (ntotal =? natoms)
  then error_all "Server md atom count does not match client"
  else
    modify map_init ;;;
    modify map_set ;;;
    modify (fun p => set_atom (atom_set_natoms natoms (atom p)) p) ;;;
    modify (set_update (Update.mk 1)).

(** ** [ServerMD::send_fev] *)

Definition local_eng (p : Proc) : double :=
  PrimFloat.add (Pair.eng_vdwl (Force.pair (force p))) (Pair.eng_coul (Force.pair (force p))).

Definition local_virial (p : Proc) : list double :=
  let v := map (fun i => rdf (Pair.virial (Force.pair (force p))) i) (seqZ 0 6) in
  match Force.kspace (force p) with
  | Some k => map (fun i => PrimFloat.add (rdf v i) (rdf (KSpace.virial k) i)) (seqZ 0 6)
  | None => v
  end.

(** The [forces] pointer: NULL when the process owns no atom, else the
    [3*nlocal] doubles of the owned atoms. *)
Definition local_forces (p : Proc) : list double :=
  if Atom.nlocal (atom p) =? 0 then []
  else concat (map (fun '(fx, fy, fz) => [fx; fy; fz])
                   (take (Z.to_nat (Atom.nlocal (atom p))) (Atom.f (atom p)))).

Definition local_ids (p : Proc) : list Z :=
  take (Z.to_nat (Atom.nlocal (atom p))) (Atom.tag (atom p)).

Definition fev_send (msgID : Z) (p : Proc) (engall vall : list double) : Send :=
  mkSend msgID 3
    [ pack_parallel FORCES 4 (Atom.nlocal (atom p)) (local_ids p) 3 (local_forces p);
      pack_double ENERGY (rdf engall 0);
      pack VIRIAL 4 6 vall ].

Definition send_fev (msgID : Z) : M World unit :=
  fun w =>
    let ps := procs w in
    let engall := MPI_Allreduce_SUM_DOUBLE 1 (map (fun p => [local_eng p]) ps) in
    let vall := MPI_Allreduce_SUM_DOUBLE 6 (map local_virial ps) in
    let sends := zip_with (fun p ev => fev_send msgID p (fst ev) (snd ev))
                          ps (zip engall vall) in
    Done tt (mkWorld ps (outbox w ++ [sends])).

(** ** The SETUP branch of the loop *)

Definition setup (m : Msg) (calls : Z * Z) : M World (Z * Z) :=
  let '(forcecalls, neighcalls) := calls in
  ns <- on_procs (each (setup_local m)) ;;
  w <- get ;;
  let ntotal := MPI_Allreduce_SUM_INT (map (fun p => Atom.nlocal (atom p)) (procs w)) in
  on_procs (each_with setup_count (zip ns ntotal)) ;;;
  collective lmp_init ;;;
  collective (setup_minimal 1) ;;;
  let neighcalls := wrap32 (neighcalls + 1) in
  let forcecalls := wrap32 (forcecalls + 1) in
  send_fev (msgID m) ;;;
  ret (forcecalls, neighcalls).

(** ** STEP on one process, up to [neighbor->decide] *)

(** The box update, made only when both ORIGIN and BOX came. *)
Definition step_box (origin box : option (list double)) : M Proc unit :=
  match origin, box with
  | Some origin, Some box =>
      p <- get ;;
      lift (triclinic_check (domain p) box) ;;;
      modify (fun p => set_domain (box_change origin box (domain p)) p) ;;;
      modify set_global_box ;;;
      modify set_local_box
  | _, _ => ret tt
  end.

(** One turn of the loop over the ids [1..nall].  The state is the process
    and the cursor [j] into [coords]. *)
Definition remap_step (coords : list double) (nlocal : Z) (st : Proc * Z) (id : Z)
    : Proc * Z :=
  let '(p, j) := st in
  let m := atom_map (atom p) id in
  if (m <? 0) || (m >=? nlocal) then (p, wrap32 (j + 3))
  else
    let xm := closest_image (domain p) (other p) (atom_x (atom p) m) (at3 coords j) in
    (set_atom (atom_set_x m xm (atom p)) p, wrap32 (j + 3)).

(** The whole loop; [nall] is [atom->natoms] read into an [int]. *)
Definition remap (coords : list double) (p : Proc) : Proc * Z :=
  let nlocal := Atom.nlocal (atom p) in
  let nall := wrap32 (Atom.natoms (atom p)) in
  fold_left (remap_step coords nlocal) (seqZ 1 nall) (p, 0).

Definition step_local (m : Msg) : M Proc unit :=
  v <- lift (step_fields m StepVars.init (fieldID m)) ;;
  match StepVars.coords v with
  | None => error_all "Required server md step field not received"
  | Some coords =>
      step_box (StepVars.origin v) (StepVars.box v) ;;;
      modify (fun p => fst (remap coords p))
  end.

(** ** The STEP branch of the loop *)

Definition step (m : Msg) (calls : Z * Z) : M World (Z * Z) :=
  let '(forcecalls, neighcalls) := calls in
  on_procs (each (step_local m)) ;;;
  w <- get ;;
  let nflag := neighbor_decide (procs w) in
  neighcalls <-
    (if nflag =? 0
     then collective forward_comm ;;; collective (setup_minimal 0) ;;; ret neighcalls
     else collective (setup_minimal 1) ;;; ret (wrap32 (neighcalls + 1))) ;;
  let forcecalls := wrap32 (forcecalls + 1) in
  send_fev (msgID m) ;;;
  ret (forcecalls, neighcalls).

(** ** [ServerMD::loop] *)

(** [cs->send(msgID,nfield)] with no field packed after it, on every rank. *)
Definition cs_send (id nfield : Z) : M World unit :=
  modify (fun w => mkWorld (procs w)
                           (outbox w ++ [map (fun _ => mkSend id nfield []) (procs w)])).

(** Modelled from the spec: what [cs->recv] gives at the end of the stream is
    decided in cslib, which is not part of this file.  Spec 4.1 and 6: the
    transport's receive yields a message or the end of the stream, and the
    end of the stream ends the loop like TERMINATE.  The loop leaves only on
    [msgID < 0], so the end of the stream is received as a message with a
    negative id and no field. *)
Definition end_of_stream : Msg := mkMsg (-1) [] 0 [] [] [] 0 0 [] [] [].

(** One turn of the [while (1)] loop on the message [m] just received;
    [rest] is what the client has sent after it, [continue] the next turn. *)
Definition turn (m : Msg) (rest : list Msg) (calls : Z * Z)
    (continue : Z * Z -> M World (Z * Z * list Msg)) : M World (Z * Z * list Msg) :=
  if msgID m <? 0 then ret (calls, rest)
  else if msgID m =? SETUP then
    calls' <- setup m calls ;; continue calls'
  else if msgID m =? STEP then
    calls' <- step m calls ;; continue calls'
  else error_all "Server MD received unrecognized message".

(** The loop over the messages the client sends.  Each turn takes the next
    message off [inbox]; the result is the two counters and the messages
    never taken. *)
Fixpoint serve (inbox : list Msg) (calls : Z * Z) : M World (Z * Z * list Msg) :=
  match inbox with
  | [] => turn end_of_stream [] calls (fun calls' => ret (calls', []))
  | m :: rest => turn m rest calls (serve rest)
  end.

(** The whole of [loop]: counters at zero, the message loop, the final reply.
    The statistics printed by rank 0 are the two counters returned. *)
Definition loop (inbox : list Msg) : M World (Z * Z * list Msg) :=
  r <- serve inbox (0, 0) ;;
  cs_send 0 0 ;;;
  ret r.

End ServerMD.

(** ** A small instance to run the model on

    [other] holds the rank; atom [id] belongs to rank [id mod 2]; the engine
    calls change nothing and [neighbor->decide] answers 0.  The instance only
    serves to evaluate the definitions on concrete messages. *)

Module Run.

Definition map_of_tags (a : Atom.t) : gmap Z Z :=
  let n := Z.to_nat (Atom.nlocal a) in
  list_to_map (zip (take n (Atom.tag a)) (seqZ 0 (Atom.nlocal a))).

Definition set_map (p : Proc Z) : Proc Z :=
  let a := atom p in
  set_atom (Atom.mk (Atom.nlocal a) (Atom.nghost a) (Atom.natoms a) (Atom.ntypes a)
                    (Atom.q_flag a) (Atom.tag a) (Atom.type a) (Atom.x a) (Atom.q a)
                    (Atom.f a) (map_of_tags a)) p.

#[export] Instance engine : Lammps Z := {|
  set_initial_box := fun p => p;
  set_global_box := fun p => p;
  set_proc_grid := fun p => p;
  set_local_box := fun p => p;
  ownatom := fun _ me id _ => id mod 2 =? me;
  closest_image := fun _ _ _ xj => xj;
  map_init := fun p => p;
  map_set := set_map;
  lmp_init := fun ps => ps;
  setup_minimal := fun _ ps => ps;
  forward_comm := fun ps => ps;
  neighbor_decide := fun _ => 0
|}.

(** A 3d, fully periodic, orthogonal server with one atom type and no charge,
    before any atom exists. *)
Definition domain0 : Domain.t :=
  Domain.mk 3 (1, 1, 1) 0 vec0 (1%float, 1%float, 1%float) 0%float 0%float 0%float.

Definition atom0 : Atom.t := Atom.mk 0 0 0 1 0 [] [] [] [] [] ∅.

Definition force0 (e : double) : Force.t :=
  Force.mk (Pair.mk e 0%float [e; e; e; 0%float; 0%float; 0%float]) None.

Definition proc0 (me : Z) : Proc Z :=
  mkProc domain0 atom0 (force0 (if me =? 0 then 1%float else 2%float)) (Update.mk 0) me.

Definition world0 : World Z := mkWorld [proc0 0; proc0 1] [].

Definition box0 : list double :=
  [2%float; 0%float; 0%float; 0%float; 2%float; 0%float; 0%float; 0%float; 2%float].

Definition coords3 : list double :=
  [0.5%float; 0.5%float; 0.5%float; 1.5%float; 0.5%float; 0.5%float;
   0.5%float; 1.5%float; 0.5%float].

(** A well-formed SETUP for three atoms. *)
Definition setup3 : Msg :=
  mkMsg SETUP [DIM; PERIODICITY; ORIGIN; BOX; NATOMS; NTYPES; TYPES; COORDS]
        3 [1; 1; 1] [0%float; 0%float; 0%float] box0 3 1 [1; 1; 1] coords3 [].

(** A STEP that carries only coordinates. *)
Definition step3 : Msg :=
  mkMsg STEP [COORDS] 0 [] [] [] 0 0 [] coords3 [].

(** The client's closing message. *)
Definition bye : Msg := mkMsg (-1) [] 0 [] [] [] 0 0 [] [] [].

(** The same SETUP for no atom at all. *)
Definition setup0 : Msg :=
  mkMsg SETUP [DIM; PERIODICITY; ORIGIN; BOX; NATOMS; NTYPES; TYPES; COORDS]
        3 [1; 1; 1] [0%float; 0%float; 0%float] box0 0 1 [] [] [].


(** A box with an xy tilt. *)
Definition box_xy : list double :=
  [2%float; 0%float; 0%float; 1%float; 2%float; 0%float; 0%float; 0%float; 2%float].

Definition setup_xy : Msg :=
  mkMsg SETUP [DIM; PERIODICITY; ORIGIN; BOX; NATOMS; NTYPES; TYPES; COORDS]
        3 [1; 1; 1] [0%float; 0%float; 0%float] box_xy 3 1 [1; 1; 1] coords3 [].

(** A STEP with the tilted box and an origin, and one with the box alone. *)
Definition step_xy : Msg :=
  mkMsg STEP [COORDS; ORIGIN; BOX] 0 [] [0%float; 0%float; 0%float] box_xy 0 0 []
        coords3 [].

Definition step_xy_no_origin : Msg :=
  mkMsg STEP [COORDS; BOX] 0 [] [] box_xy 0 0 [] coords3 [].

(** A SETUP with a negative atom count. *)
Definition setup_neg : Msg :=
  mkMsg SETUP [DIM; PERIODICITY; ORIGIN; BOX; NATOMS; NTYPES; TYPES; COORDS]
        3 [1; 1; 1] [0%float; 0%float; 0%float] box0 (-5) 1 [] [] [].

(** [box0] with other numbers at the entries 1, 2 and 5. *)
Definition box0_other : list double :=
  [2%float; 9%float; 9%float; 0%float; 2%float; 9%float; 0%float; 0%float; 2%float].

(** The group after the atom loop of [setup3], and after the whole SETUP. *)
Definition scattered3 : list Z * list (Proc Z) :=
  match each (setup_local setup3) (procs world0) with
  | Done ns ps => (ns, ps)
  | Fatal _ ps => ([], ps)
  end.

Definition world3 : World Z :=
  match setup setup3 (0, 0) world0 with
  | Done _ w => w
  | Fatal _ w => w
  end.

Definition proc3 : Proc Z := default (proc0 0) (head (procs world3)).

(** The counters and the group after [setup3] and [step3] have been answered. *)
Definition served3 : Z * Z * World Z :=
  match serve [setup3; step3] (0, 0) world0 with
  | Done (calls, _) w => (calls, w)
  | Fatal _ w => ((0, 0), w)
  end.

End Run.

(** ** Messages that differ in their BOX payload only *)

Definition with_box (m : Msg) (box : list double) : Msg :=
  mkMsg (msgID m) (fieldID m) (m_dim m) (m_periodicity m) (m_origin m) box
        (m_natoms m) (m_ntypes m) (m_types m) (m_coords m) (m_charge m).

(** Two tensors with the same entries 0, 3, 4, 6, 7 and 8. *)
Definition box_agree (b b' : list double) : Prop :=
  rdf b 0 = rdf b' 0 /\ rdf b 3 = rdf b' 3 /\ rdf b 4 = rdf b' 4 /\
  rdf b 6 = rdf b' 6 /\ rdf b 7 = rdf b' 7 /\ rdf b 8 = rdf b' 8.

(** ** Notions used in the statements *)

Definition swap_setup_box (b' : list double) (v : SetupVars.t) : SetupVars.t :=
  SetupVars.mk (SetupVars.dim v) (SetupVars.periodicity v) (SetupVars.natoms v)
    (SetupVars.ntypes v) (SetupVars.origin v)
    (match SetupVars.box v with Some _ => Some b' | None => None end)
    (SetupVars.types v) (SetupVars.coords v) (SetupVars.charge v).

Definition swap_args_box (b' : list double) (a : SetupArgs.t) : SetupArgs.t :=
  SetupArgs.mk (SetupArgs.natoms a) (SetupArgs.origin a) b' (SetupArgs.types a)
    (SetupArgs.coords a) (SetupArgs.charge a).

Definition swap_step_box (b' : list double) (v : StepVars.t) : StepVars.t :=
  StepVars.mk (StepVars.coords v) (StepVars.origin v)
    (match StepVars.box v with Some _ => Some b' | None => None end).

(** A reply to a SETUP or a STEP: the message's id and three fields. *)
Definition is_reply (id : Z) (s : Send) : Prop :=
  send_msgID s = id /\ send_nfield s = 3.

Section Notions.

Context {Other : Type} `{!Lammps Other}.

(** The energy and the virial every process packs. *)
Definition engall (ps : list (Proc Other)) : double := fsum (map local_eng ps).

Definition vall (ps : list (Proc Other)) : list double :=
  map (fun k => fsum (map (fun q => rdf (local_virial q) k) ps)) (seqZ 0 6).

(** The ownership test the atom loop of SETUP makes for the atom at index [i]. *)
Definition owns (coords : list double) (p : Proc Other) (i : Z) : bool :=
  ownatom (domain p) (other p) (i + 1) (at3 coords (wrap32 (3 * i))).

(** The atom the loop adds at index [nlocal] for the atom at index [i]. *)
Definition added_atom (a : SetupArgs.t) (q : Proc Other) (nlocal i : Z) : Atom.t :=
  let a1 := create_atom (rd (SetupArgs.types a) i)
                        (at3 (SetupArgs.coords a) (wrap32 (3 * i))) (atom q) in
  let a2 := atom_set_tag nlocal (i + 1) a1 in
  match SetupArgs.charge a with
  | Some charge => atom_set_q nlocal (rdf charge i) a2
  | None => a2
  end.

(** The ids of [1..natoms] a process owns, in the order of the loop. *)
Definition owned_ids (coords : list double) (natoms : Z) (p : Proc Other) : list Z :=
  (fun i => i + 1) <$> filter (fun i => owns coords p i) (seqZ 0 natoms).

(** At most one process of the group owns the atom at index [i]. *)
Definition one_owner_at_most (coords : list double) (ps : list (Proc Other)) (i : Z) : Prop :=
  (length (filter (fun p => owns coords p i) ps) <= 1)%nat.

End Notions.

(** ** [ServerMD::ServerMD]

    The constructor reads five settings of the LAMMPS instance and keeps the
    unit system; each failed test is an [error->all]. *)

Module Settings.
Record t := mk {
  box_exist : Z;               (* domain->box_exist *)
  map_style : Z;               (* atom->map_style *)
  tag_enable : Z;              (* atom->tag_enable *)
  sizeof_tagint : Z;           (* sizeof(tagint) *)
  unit_style : string          (* update->unit_style *)
}.
End Settings.

Definition REAL : Z := 0.
Definition METAL : Z := 1.

(** The constructor: the value of [units], or the error. *)
Definition ServerMD_ctor (s : Settings.t) : res Z :=
  if Settings.box_exist s =? 0
  then Err "Server command before simulation box is defined"
  else if Settings.map_style s =? 0
  then Err "Server md requires atom map"
  else if Settings.tag_enable s =? 0
  then Err "Server md requires atom IDs"
  else if negb (Settings.sizeof_tagint s =? 4)
  then Err "Server md requires 4-byte atom IDs"
  else if String.eqb (Settings.unit_style s) "real" then Ok REAL
  else if String.eqb (Settings.unit_style s) "metal" then Ok METAL
  else Err "Units must be real or metal for server md".

(** ** Notions used in the further properties *)

(** The same message with another list of field ids. *)
Definition with_fieldID (m : Msg) (ids : list Z) : Msg :=
  mkMsg (msgID m) ids (m_dim m) (m_periodicity m) (m_origin m) (m_box m)
        (m_natoms m) (m_ntypes m) (m_types m) (m_coords m) (m_charge m).

(** The fields a SETUP must carry. *)
Definition setup_required : list Z :=
  [DIM; PERIODICITY; ORIGIN; BOX; NATOMS; NTYPES; TYPES; COORDS].

(** What makes a SETUP pass every test made before the state is touched. *)
Definition setup_acceptable (d : Domain.t) (a : Atom.t) (m : Msg) : Prop :=
  Forall (fun fid => 1 <= fid <= 9) (fieldID m) /\
  Forall (fun fid => fid ∈ fieldID m) setup_required /\
  m_dim m = Domain.dimension d /\ m_dim m <> 0 /\
  periodicity_matches m d /\
  m_ntypes m = Atom.ntypes a /\ 0 <= m_ntypes m /\
  0 <= m_natoms m /\
  (CHARGE ∈ fieldID m -> Atom.q_flag a <> 0) /\
  (tilted (m_box m) = true -> Domain.triclinic d <> 0).

(** What an accepted SETUP works with. *)
Definition setup_args_of (m : Msg) : SetupArgs.t :=
  SetupArgs.mk (m_natoms m) (m_origin m) (m_box m) (m_types m) (m_coords m)
    (if bool_decide (CHARGE ∈ fieldID m) then Some (m_charge m) else None).

(** The fields a STEP may carry. *)
Definition step_known (fid : Z) : Prop := fid = COORDS \/ fid = ORIGIN \/ fid = BOX.

(** The test one field of a SETUP must pass in the field loop. *)
Definition setup_field_ok (d : Domain.t) (a : Atom.t) (m : Msg) (fid : Z) : Prop :=
  1 <= fid <= 9 /\
  (fid = DIM -> m_dim m = Domain.dimension d) /\
  (fid = PERIODICITY -> periodicity_matches m d) /\
  (fid = NTYPES -> m_ntypes m = Atom.ntypes a).

#[export] Instance step_known_dec (fid : Z) : Decision (step_known fid).
Proof. unfold step_known. apply _. Defined.

(** A process without its positions. *)
Definition except_x {Other} (p : Proc Other)
    : Domain.t * Atom.t * Force.t * Update.t * Other :=
  let a := atom p in
  (domain p,
   Atom.mk (Atom.nlocal a) (Atom.nghost a) (Atom.natoms a) (Atom.ntypes a) (Atom.q_flag a)
           (Atom.tag a) (Atom.type a) [] (Atom.q a) (Atom.f a) (Atom.map_tab a),
   force p, update p, other p).

(** The number of SETUP messages of a list. *)
Definition count_setup (msgs : list Msg) : Z :=
  Z.of_nat (length (filter (fun m => msgID m = SETUP) msgs)).

(** ** Further cases to run the model on *)

Module Cases.

Import Run.

(** The fields of [Run.setup3] in another order, one of them twice. *)
Definition fields3_shuffled : list Z :=
  [COORDS; TYPES; NTYPES; NATOMS; BOX; ORIGIN; PERIODICITY; DIM; COORDS].

(** A STEP with a field that STEP does not know, and one without COORDS. *)
Definition step_types : Msg :=
  mkMsg STEP [COORDS; TYPES] 0 [] [] [] 0 0 [1; 1; 1] Run.coords3 [].

Definition step_box_only : Msg :=
  mkMsg STEP [ORIGIN; BOX] 0 [] [0%float; 0%float; 0%float] Run.box0 0 0 [] [] [].

(** A message whose id is neither SETUP nor STEP. *)
Definition msg7 : Msg := mkMsg 7 [] 0 [] [] [] 0 0 [] [] [].

(** The group when the loop has answered [Run.setup3] and [Run.step3] and
    sent its closing message. *)
Definition closed3 : World Z :=
  match loop [Run.setup3; Run.step3] Run.world0 with
  | Done _ w => w
  | Fatal _ w => w
  end.

(** The settings of a server in metal units. *)
Definition settings_metal : Settings.t := Settings.mk 1 1 1 4 "metal".

(** A server with charges, a SETUP that carries them, and rank 1 after the
    atom loop of that SETUP. *)
Definition atom0q : Atom.t := Atom.mk 0 0 0 1 1 [] [] [] [] [] ∅.

Definition proc0q (me : Z) : Proc Z :=
  mkProc Run.domain0 atom0q (Run.force0 1%float) (Update.mk 0) me.

Definition charge3 : list double := [0.5%float; 0.75%float; 0.25%float].

Definition setup3q : Msg :=
  mkMsg SETUP [DIM; PERIODICITY; ORIGIN; BOX; NATOMS; NTYPES; TYPES; COORDS; CHARGE]
        3 [1; 1; 1] [0%float; 0%float; 0%float] Run.box0 3 1 [1; 1; 1] Run.coords3 charge3.

Definition proc3q : Proc Z :=
  match setup_local setup3q (proc0q 1) with
  | Done _ p => p
  | Fatal _ p => p
  end.

End Cases.

(** * Properties *)

Create HintDb monad_ops.
#[export] Hint Unfold bind ret error_all get modify lift on_procs collective : monad_ops.

Ltac run_monad := autounfold with monad_ops; cbn beta iota.

(** Splits on the condition of the first conditional of the goal. *)
Ltac split_if :=
  match goal with
  | |- context [if ?b then _ else _] =>
      lazymatch type of b with bool => destruct b eqn:? end
  end.

Ltac split_if_in H :=
  match type of H with
  | context [if ?b then _ else _] =>
      lazymatch type of b with bool => destruct b eqn:? end
  end.

(** ** 32-bit arithmetic *)

Lemma wrap32_range (z : Z) : -2147483648 <= wrap32 z <= INT_MAX.
Proof.
  unfold wrap32, INT_MAX.
  pose proof (Z.mod_pos_bound (z + 2147483648) 4294967296 eq_refl). lia.
Qed.

Lemma wrap32_id (z : Z) : -2147483648 <= z <= INT_MAX -> wrap32 z = z.
Proof.
  unfold wrap32, INT_MAX. intros Hz.
  rewrite Z.mod_small by lia. lia.
Qed.

(** The test [3*natoms > INT_MAX] compares an [int] with the largest [int]. *)
Lemma max_atoms_test_false (natoms : Z) : (wrap32 (3 * natoms) >? INT_MAX) = false.
Proof.
  pose proof (wrap32_range (3 * natoms)).
  rewrite Z.gtb_ltb. apply Z.ltb_ge. lia.
Qed.

(** ** The SETUP field loop *)

Lemma setup_field_box d a m v fid v' :
  setup_field d a m v fid = Ok v' ->
  SetupVars.box v' = if fid =? BOX then Some (m_box m) else SetupVars.box v.
Proof.
  destruct v. unfold setup_field.
  repeat split_if; intros E; inversion E; subst; clear E; cbn; try reflexivity;
    try (exfalso; unfold DIM, PERIODICITY, ORIGIN, BOX, NATOMS, NTYPES, TYPES, COORDS,
           CHARGE in *; lia).
Qed.

Lemma setup_field_natoms d a m v fid v' :
  setup_field d a m v fid = Ok v' ->
  SetupVars.natoms v' = if fid =? NATOMS then m_natoms m else SetupVars.natoms v.
Proof.
  destruct v. unfold setup_field.
  repeat split_if; intros E; inversion E; subst; clear E; cbn; try reflexivity;
    try (exfalso; unfold DIM, PERIODICITY, ORIGIN, BOX, NATOMS, NTYPES, TYPES, COORDS,
           CHARGE in *; lia).
Qed.

Lemma setup_fields_box d a m ids : forall v v',
  setup_fields d a m v ids = Ok v' ->
  SetupVars.box v' = if bool_decide (BOX ∈ ids) then Some (m_box m) else SetupVars.box v.
Proof.
  induction ids as [|fid ids IH]; intros v v' E; cbn in E.
  - inversion E; subst. reflexivity.
  - destruct (setup_field d a m v fid) as [v1|] eqn:E1; [|discriminate].
    rewrite (IH _ _ E). apply setup_field_box in E1.
    destruct (Z.eqb_spec fid BOX) as [->|Hne].
    + rewrite E1. rewrite (bool_decide_eq_true_2 (BOX ∈ BOX :: ids)) by left.
      case_bool_decide; reflexivity.
    + rewrite E1. case_bool_decide as H1; case_bool_decide as H2; try reflexivity.
      * exfalso. apply H2. right. exact H1.
      * exfalso. apply elem_of_cons in H2 as [H2|H2]; [congruence | contradiction].
Qed.

Lemma setup_fields_natoms d a m ids : forall v v',
  setup_fields d a m v ids = Ok v' ->
  SetupVars.natoms v' = SetupVars.natoms v \/ SetupVars.natoms v' = m_natoms m.
Proof.
  induction ids as [|fid ids IH]; intros v v' E; cbn in E.
  - inversion E; subst. left; reflexivity.
  - destruct (setup_field d a m v fid) as [v1|] eqn:E1; [|discriminate].
    apply setup_field_natoms in E1.
    destruct (IH _ _ E) as [H1|H1]; [|right; exact H1].
    rewrite H1, E1. destruct (fid =? NATOMS); [right|left]; reflexivity.
Qed.


Lemma setup_checks_ok d a v args :
  setup_checks d a v = Ok args ->
  0 <= SetupVars.natoms v /\
  SetupArgs.natoms args = SetupVars.natoms v /\
  SetupVars.origin v = Some (SetupArgs.origin args) /\
  SetupVars.box v = Some (SetupArgs.box args) /\
  SetupVars.types v = Some (SetupArgs.types args) /\
  SetupVars.coords v = Some (SetupArgs.coords args) /\
  SetupArgs.charge args = SetupVars.charge v /\
  triclinic_check d (SetupArgs.box args) = Ok tt.
Proof.
  unfold setup_checks. intros E.
  destruct (SetupVars.periodicity v), (SetupVars.origin v), (SetupVars.box v) as [b|],
    (SetupVars.types v), (SetupVars.coords v); try discriminate.
  split_if_in E; [discriminate|].
  split_if_in E; [discriminate|].
  destruct (triclinic_check d b) as [[]|] eqn:Et; [|discriminate].
  inversion E; subst; cbn.
  repeat split; try reflexivity; try exact Et.
  apply orb_false_elim in Heqb0 as [Heqb0 _].
  apply orb_false_elim in Heqb0 as [_ Heqb0]. lia.
Qed.

Lemma triclinic_check_tilted d box :
  tilted box = true -> Domain.triclinic d = 0 ->
  triclinic_check d box = Err "Server md is not initialized for a triclinic box".
Proof. intros Ht Hd. unfold triclinic_check. rewrite Ht, Hd. reflexivity. Qed.

(** A SETUP whose BOX is tilted never passes the checks of an orthogonal server. *)
Lemma setup_validate_tilted d a m :
  BOX ∈ fieldID m -> tilted (m_box m) = true -> Domain.triclinic d = 0 ->
  exists msg, setup_validate d a m = Err msg.
Proof.
  intros Hin Ht Hd. unfold setup_validate.
  destruct (setup_fields d a m SetupVars.init (fieldID m)) as [v|msg] eqn:Ef; [|eauto].
  apply setup_fields_box in Ef. rewrite bool_decide_eq_true_2 in Ef by exact Hin.
  destruct (setup_checks d a v) as [args|msg] eqn:Ec; [|eauto].
  apply setup_checks_ok in Ec as (_ & _ & _ & Hb & _ & _ & _ & Hc).
  rewrite Ef in Hb. inversion Hb as [Hb']. rewrite <- Hb' in Hc.
  rewrite (triclinic_check_tilted _ _ Ht Hd) in Hc. discriminate.
Qed.

Lemma setup_validate_natoms d a m args :
  setup_validate d a m = Ok args ->
  0 <= SetupArgs.natoms args /\ SetupArgs.natoms args = m_natoms m.
Proof.
  unfold setup_validate. intros E.
  destruct (setup_fields d a m SetupVars.init (fieldID m)) as [v|] eqn:Ef; [|discriminate].
  apply setup_checks_ok in E as (H0 & Hn & _).
  apply setup_fields_natoms in Ef. cbn in Ef. rewrite Hn. split; [exact H0|].
  destruct Ef as [Ef|Ef]; [lia | exact Ef].
Qed.

(** ** The STEP field loop *)

Lemma step_field_vars m v fid v' :
  step_field m v fid = Ok v' ->
  StepVars.coords v' = (if fid =? COORDS then Some (m_coords m) else StepVars.coords v) /\
  StepVars.origin v' = (if fid =? ORIGIN then Some (m_origin m) else StepVars.origin v) /\
  StepVars.box v' = (if fid =? BOX then Some (m_box m) else StepVars.box v).
Proof.
  destruct v. unfold step_field.
  repeat split_if; intros E; inversion E; subst; clear E; cbn; repeat split;
    try reflexivity;
    try (exfalso; unfold ORIGIN, BOX, COORDS in *; lia).
Qed.

(** The field loop of STEP fails on an unknown field only. *)
Lemma step_fields_err m ids : forall v msg,
  step_fields m v ids = Err msg -> msg = "Server md step field unknown"%string.
Proof.
  induction ids as [|fid ids IH]; intros v msg E; cbn in E; [discriminate|].
  destruct (step_field m v fid) as [v1|msg1] eqn:E1; [eauto|].
  inversion E; subst. destruct v. unfold step_field in E1.
  repeat split_if_in E1; inversion E1; reflexivity.
Qed.

Lemma bool_decide_cons_eq (fid k : Z) (ids : list Z) :
  bool_decide (k ∈ fid :: ids) = (fid =? k) || bool_decide (k ∈ ids).
Proof.
  destruct (Z.eqb_spec fid k) as [->|Hne]; cbn.
  - apply bool_decide_eq_true_2. left.
  - apply bool_decide_ext. rewrite elem_of_cons. intuition congruence.
Qed.

Lemma step_fields_vars m ids : forall v v',
  step_fields m v ids = Ok v' ->
  StepVars.coords v' =
    (if bool_decide (COORDS ∈ ids) then Some (m_coords m) else StepVars.coords v) /\
  StepVars.origin v' =
    (if bool_decide (ORIGIN ∈ ids) then Some (m_origin m) else StepVars.origin v) /\
  StepVars.box v' =
    (if bool_decide (BOX ∈ ids) then Some (m_box m) else StepVars.box v).
Proof.
  induction ids as [|fid ids IH]; intros v v' E; cbn in E.
  - inversion E; subst. repeat split; reflexivity.
  - destruct (step_field m v fid) as [v1|] eqn:E1; [|discriminate].
    destruct (IH _ _ E) as (Hc & Ho & Hb).
    apply step_field_vars in E1 as (Hc1 & Ho1 & Hb1).
    rewrite !bool_decide_cons_eq, Hc, Ho, Hb, Hc1, Ho1, Hb1.
    repeat split.
    + destruct (fid =? COORDS), (bool_decide (COORDS ∈ ids)); reflexivity.
    + destruct (fid =? ORIGIN), (bool_decide (ORIGIN ∈ ids)); reflexivity.
    + destruct (fid =? BOX), (bool_decide (BOX ∈ ids)); reflexivity.
Qed.

Lemma periodicity_differs_spec m d :
  periodicity_differs (m_periodicity m) d = true <-> ~ periodicity_matches m d.
Proof.
  unfold periodicity_differs, periodicity_matches.
  destruct (Domain.periodicity d) as [[p0 p1] p2].
  rewrite !orb_true_iff, !negb_true_iff, !Z.eqb_neq. split.
  - intros H E. inversion E. lia.
  - intros H.
    destruct (Z.eq_dec (rd (m_periodicity m) 0) p0) as [E0|]; [|auto].
    destruct (Z.eq_dec (rd (m_periodicity m) 1) p1) as [E1|]; [|auto].
    destruct (Z.eq_dec (rd (m_periodicity m) 2) p2) as [E2|]; [|auto].
    exfalso. apply H. congruence.
Qed.

Section PerProcess.

Context {Other : Type} `{!Lammps Other}.

Lemma setup_local_eq (m : Msg) (p : Proc Other) :
  setup_local m p =
  match setup_validate (domain p) (atom p) m with
  | Ok a => Done (SetupArgs.natoms a) (scatter a (clear_atoms (setup_box a p)))
  | Err msg => Fatal msg p
  end.
Proof.
  unfold setup_local. run_monad.
  destruct (setup_validate (domain p) (atom p) m); reflexivity.
Qed.

Lemma step_box_eq (origin box : list double) (p : Proc Other) :
  step_box (Some origin) (Some box) p =
  match triclinic_check (domain p) box with
  | Ok _ => Done tt (set_local_box (set_global_box
                       (set_domain (box_change origin box (domain p)) p)))
  | Err msg => Fatal msg p
  end.
Proof.
  unfold step_box. run_monad.
  destruct (triclinic_check (domain p) box); reflexivity.
Qed.

Lemma step_local_eq (m : Msg) (p : Proc Other) :
  step_local m p =
  match step_fields m StepVars.init (fieldID m) with
  | Err msg => Fatal msg p
  | Ok v =>
      match StepVars.coords v with
      | None => Fatal "Required server md step field not received" p
      | Some coords =>
          match step_box (StepVars.origin v) (StepVars.box v) p with
          | Done _ p1 => Done tt (fst (remap coords p1))
          | Fatal msg p1 => Fatal msg p1
          end
      end
  end.
Proof.
  unfold step_local. run_monad.
  destruct (step_fields m StepVars.init (fieldID m)) as [v|]; [|reflexivity].
  destruct (StepVars.coords v); [|reflexivity].
  destruct (step_box (StepVars.origin v) (StepVars.box v) p); reflexivity.
Qed.

(** The remap loop writes positions only. *)
Lemma remap_domain (coords : list double) (p : Proc Other) :
  domain (fst (remap coords p)) = domain p.
Proof.
  unfold remap.
  generalize (seqZ 1 (wrap32 (Atom.natoms (atom p)))) as ids.
  generalize (Atom.nlocal (atom p)) as nlocal.
  generalize 0 as j. revert p.
  intros p j nlocal ids. revert p j.
  induction ids as [|id ids IH]; intros p j; cbn [fold_left]; [reflexivity|].
  destruct (remap_step coords nlocal (p, j) id) as [p1 j1] eqn:E.
  rewrite IH. unfold remap_step in E.
  split_if_in E; inversion E; reflexivity.
Qed.

End PerProcess.

(** * The claims *)

Section Claims.

Context {Other : Type} `{!Lammps Other}.

(** C7. [box_change] is a function of [origin] and [box] alone: on each axis
    the lower bound becomes [origin[axis]] and the upper bound
    [origin[axis]] plus the diagonal entry of the tensor (indices 0, 4, 8);
    the tilt factors xy, xz, yz become the entries 3, 6, 7; the geometry it
    leaves does not depend on the geometry it found; and nothing else changes,
    in the domain or in the rest of the process. *)
Theorem C7_box_change_installs (origin box : list double) (p : Proc Other) :
  let d' := box_change origin box (domain p) in
  Domain.boxlo d' = (rdf origin 0, rdf origin 1, rdf origin 2) /\
  Domain.boxhi d' = (PrimFloat.add (rdf origin 0) (rdf box 0),
                     PrimFloat.add (rdf origin 1) (rdf box 4),
                     PrimFloat.add (rdf origin 2) (rdf box 8)) /\
  Domain.xy d' = rdf box 3 /\
  Domain.xz d' = rdf box 6 /\
  Domain.yz d' = rdf box 7 /\
  (forall d2 : Domain.t, box_geometry (box_change origin box d2) = box_geometry d') /\
  Domain.dimension d' = Domain.dimension (domain p) /\
  Domain.periodicity d' = Domain.periodicity (domain p) /\
  Domain.triclinic d' = Domain.triclinic (domain p) /\
  atom (set_domain d' p) = atom p /\
  force (set_domain d' p) = force p /\
  update (set_domain d' p) = update p /\
  other (set_domain d' p) = other p.
Proof. cbn. repeat split; reflexivity. Qed.

(** C5, as the code has it.  A SETUP passes the checks only with the NATOMS
    it carries, and only when that is not negative: a negative NATOMS is
    always rejected. *)
Theorem C5_natoms_not_negative (d : Domain.t) (a : Atom.t) (m : Msg) :
  (m_natoms m < 0 -> exists msg, setup_validate d a m = Err msg) /\
  (forall args, setup_validate d a m = Ok args ->
     0 <= m_natoms m /\ SetupArgs.natoms args = m_natoms m).
Proof.
  split.
  - intros Hneg. destruct (setup_validate d a m) as [args|msg] eqn:E; [|eauto].
    apply setup_validate_natoms in E. lia.
  - intros args E. apply setup_validate_natoms in E. split; [lia | tauto].
Qed.

(** The max-atoms error of the NATOMS field is never raised. *)
Lemma max_atoms_error_unreachable (d : Domain.t) (a : Atom.t) (m : Msg) (v : SetupVars.t) :
  setup_field d a m v NATOMS
  = Ok (SetupVars.mk (SetupVars.dim v) (SetupVars.periodicity v) (m_natoms m)
          (SetupVars.ntypes v) (SetupVars.origin v) (SetupVars.box v)
          (SetupVars.types v) (SetupVars.coords v) (SetupVars.charge v)).
Proof.
  destruct v. unfold setup_field. cbn. rewrite max_atoms_test_false. reflexivity.
Qed.

(** On one process: a tilted BOX and an orthogonal server. *)
Lemma tilted_box_local (m : Msg) (p : Proc Other) :
  BOX ∈ fieldID m ->
  tilted (m_box m) = true ->
  Domain.triclinic (domain p) = 0 ->
  (exists msg, setup_local m p = Fatal msg p) /\
  (ORIGIN ∈ fieldID m -> exists msg, step_local m p = Fatal msg p) /\
  (ORIGIN ∉ fieldID m ->
     (forall msg p', step_local m p = Fatal msg p' ->
        p' = p /\ msg <> "Server md is not initialized for a triclinic box"%string) /\
     (forall u p', step_local m p = Done u p' -> domain p' = domain p)).
Proof.
  intros Hin Ht Hd. split; [|split].
  - rewrite setup_local_eq.
    destruct (setup_validate_tilted (domain p) (atom p) m Hin Ht Hd) as [msg ->]. eauto.
  - intros Ho. rewrite step_local_eq.
    destruct (step_fields m StepVars.init (fieldID m)) as [v|msg] eqn:Ef; [|eauto].
    apply step_fields_vars in Ef as (_ & Hov & Hbv).
    rewrite bool_decide_eq_true_2 in Hov by exact Ho.
    rewrite bool_decide_eq_true_2 in Hbv by exact Hin.
    destruct (StepVars.coords v); [|eauto].
    rewrite Hov, Hbv, step_box_eq, (triclinic_check_tilted _ _ Ht Hd). eauto.
  - intros Hno. split.
    + intros msg p'. rewrite step_local_eq.
      destruct (step_fields m StepVars.init (fieldID m)) as [v|msg'] eqn:Ef.
      2:{ apply step_fields_err in Ef. intros E. inversion E; subst.
          split; [reflexivity | discriminate]. }
      apply step_fields_vars in Ef as (_ & Hov & _).
      rewrite bool_decide_eq_false_2 in Hov by exact Hno.
      destruct (StepVars.coords v);
        [|intros E; inversion E; split; [reflexivity | discriminate]].
      rewrite Hov. cbn. discriminate.
    + intros u p'. rewrite step_local_eq.
      destruct (step_fields m StepVars.init (fieldID m)) as [v|msg'] eqn:Ef; [|discriminate].
      apply step_fields_vars in Ef as (_ & Hov & _).
      rewrite bool_decide_eq_false_2 in Hov by exact Hno.
      destruct (StepVars.coords v); [|discriminate].
      rewrite Hov. cbn. intros E. inversion E. apply remap_domain.
Qed.


(** ** Running a handler on the whole group *)

Lemma each_ext {A} (c1 c2 : M (Proc Other) A) (ps : list (Proc Other)) :
  (forall p, c1 p = c2 p) -> each c1 ps = each c2 ps.
Proof.
  intros Hc. induction ps as [|p ps IH]; cbn; [reflexivity|].
  rewrite Hc, IH. reflexivity.
Qed.

(** When no process gets past its checks, the group stops where it was. *)
Lemma each_all_fatal {A} (c : M (Proc Other) A) (ps : list (Proc Other)) :
  ps <> [] ->
  (forall p, p ∈ ps -> exists msg, c p = Fatal msg p) ->
  exists msg, each c ps = Fatal msg ps.
Proof.
  induction ps as [|p ps IH]; intros Hne Hall; [congruence|].
  cbn. destruct (Hall p) as [msg ->]; [left|].
  destruct ps as [|q ps].
  - cbn. eauto.
  - destruct IH as [msg' ->]; [discriminate | intros r Hr; apply Hall; right; exact Hr |].
    eauto.
Qed.

Lemma each_all_done {A} (c : M (Proc Other) A) (ps : list (Proc Other)) :
  (forall p, p ∈ ps -> exists a p', c p = Done a p') ->
  exists r ps', each c ps = Done r ps' /\ length ps' = length ps.
Proof.
  induction ps as [|p ps IH]; intros Hall; cbn.
  - exists [], []. split; reflexivity.
  - destruct (Hall p) as (a & p' & ->); [left|].
    destruct IH as (r & ps' & -> & Hlen); [intros q Hq; apply Hall; right; exact Hq|].
    exists (a :: r), (p' :: ps'). cbn. split; [reflexivity | congruence].
Qed.


Lemma set_procs_same (w : World Other) : set_procs (procs w) w = w.
Proof. destruct w; reflexivity. Qed.

(** The SETUP branch, phase by phase. *)
Lemma setup_eq (m : Msg) (forcecalls neighcalls : Z) (w : World Other) :
  setup m (forcecalls, neighcalls) w =
  match each (setup_local m) (procs w) with
  | Fatal msg ps => Fatal msg (set_procs ps w)
  | Done ns ps =>
      let ntotal := MPI_Allreduce_SUM_INT (map (fun p => Atom.nlocal (atom p)) ps) in
      match each_with setup_count (zip ns ntotal) ps with
      | Fatal msg ps2 => Fatal msg (mkWorld ps2 (outbox w))
      | Done _ ps2 =>
          match send_fev (msgID m) (mkWorld (setup_minimal 1 (lmp_init ps2)) (outbox w)) with
          | Done _ w' => Done (wrap32 (forcecalls + 1), wrap32 (neighcalls + 1)) w'
          | Fatal msg w' => Fatal msg w'
          end
      end
  end.
Proof.
  unfold setup. run_monad.
  destruct (each (setup_local m) (procs w)) as [ns ps|msg ps]; [|reflexivity].
  cbn.
  destruct (each_with setup_count _ ps) as [u ps2|msg ps2]; reflexivity.
Qed.

(** The STEP branch, phase by phase. *)
Lemma step_eq (m : Msg) (forcecalls neighcalls : Z) (w : World Other) :
  step m (forcecalls, neighcalls) w =
  match each (step_local m) (procs w) with
  | Fatal msg ps => Fatal msg (set_procs ps w)
  | Done _ ps =>
      let nflag := neighbor_decide ps in
      let ps' := if nflag =? 0 then setup_minimal 0 (forward_comm ps)
                 else setup_minimal 1 ps in
      let neighcalls' := if nflag =? 0 then neighcalls else wrap32 (neighcalls + 1) in
      match send_fev (msgID m) (mkWorld ps' (outbox w)) with
      | Done _ w' => Done (wrap32 (forcecalls + 1), neighcalls') w'
      | Fatal msg w' => Fatal msg w'
      end
  end.
Proof.
  unfold step. run_monad.
  destruct (each (step_local m) (procs w)) as [us ps|msg ps]; [|reflexivity].
  cbn. destruct (neighbor_decide ps =? 0); reflexivity.
Qed.


(** C4, as the code has it.  On a group of processes none of which is
    triclinic, a SETUP whose BOX has a non-zero entry 3, 6 or 7 fails before
    the box is installed, and so does a STEP that carries the BOX together
    with an ORIGIN: the whole state, box geometry included, is what it was
    and nothing is sent.  A STEP that carries no ORIGIN never looks at its
    BOX: no process raises the triclinic error on it, and whether a process
    fails (on another test) or not, its part of the handler leaves its domain
    as it was. *)
Theorem C4_tilted_box_rejected (m : Msg) (calls : Z * Z) (w : World Other) :
  procs w <> [] ->
  (forall p, p ∈ procs w -> Domain.triclinic (domain p) = 0) ->
  BOX ∈ fieldID m ->
  tilted (m_box m) = true ->
  (exists msg, setup m calls w = Fatal msg w) /\
  (ORIGIN ∈ fieldID m -> exists msg, step m calls w = Fatal msg w) /\
  (ORIGIN ∉ fieldID m -> forall p, p ∈ procs w ->
     (forall msg p', step_local m p = Fatal msg p' ->
        p' = p /\ msg <> "Server md is not initialized for a triclinic box"%string) /\
     (forall u p', step_local m p = Done u p' -> domain p' = domain p)).
Proof.
  intros Hne Htri Hin Ht. destruct calls as [fc nc]. split; [|split].
  - rewrite setup_eq.
    destruct (each_all_fatal (setup_local m) (procs w) Hne) as [msg ->].
    + intros p Hp. apply (tilted_box_local m p Hin Ht (Htri p Hp)).
    + rewrite set_procs_same. eauto.
  - intros Ho. rewrite step_eq.
    destruct (each_all_fatal (step_local m) (procs w) Hne) as [msg ->].
    + intros p Hp. apply (tilted_box_local m p Hin Ht (Htri p Hp)). exact Ho.
    + rewrite set_procs_same. eauto.
  - intros Hno p Hp. apply (tilted_box_local m p Hin Ht (Htri p Hp)). exact Hno.
Qed.

(** ** Entries 1, 2 and 5 of the BOX tensor *)

Lemma setup_field_swap d a m b' v fid :
  setup_field d a (with_box m b') (swap_setup_box b' v) fid =
  match setup_field d a m v fid with
  | Ok v1 => Ok (swap_setup_box b' v1)
  | Err msg => Err msg
  end.
Proof.
  destruct v as [dim per natoms ntypes origin box types coords charge].
  unfold setup_field, swap_setup_box. destruct box; cbn.
  all: repeat split_if; reflexivity.
Qed.

Lemma setup_fields_swap d a m b' ids : forall v,
  setup_fields d a (with_box m b') (swap_setup_box b' v) ids =
  match setup_fields d a m v ids with
  | Ok v1 => Ok (swap_setup_box b' v1)
  | Err msg => Err msg
  end.
Proof.
  induction ids as [|fid ids IH]; intros v; cbn [setup_fields]; [reflexivity|].
  rewrite setup_field_swap.
  destruct (setup_field d a m v fid); [apply IH | reflexivity].
Qed.

Lemma tilted_agree b b' : box_agree b b' -> tilted b = tilted b'.
Proof.
  intros (_ & H3 & _ & H6 & H7 & _). unfold tilted. rewrite H3, H6, H7. reflexivity.
Qed.

Lemma box_change_agree o b b' d : box_agree b b' -> box_change o b d = box_change o b' d.
Proof.
  intros (H0 & H3 & H4 & H6 & H7 & H8). unfold box_change.
  rewrite H0, H3, H4, H6, H7, H8. reflexivity.
Qed.

Lemma setup_validate_swap d a m b' :
  box_agree (m_box m) b' ->
  setup_validate d a (with_box m b') =
  match setup_validate d a m with
  | Ok args => Ok (swap_args_box b' args)
  | Err msg => Err msg
  end.
Proof.
  intros Hag. unfold setup_validate.
  change (fieldID (with_box m b')) with (fieldID m).
  change SetupVars.init with (swap_setup_box b' SetupVars.init) at 1.
  rewrite setup_fields_swap.
  destruct (setup_fields d a m SetupVars.init (fieldID m)) as [v|] eqn:Ef; [|reflexivity].
  apply setup_fields_box in Ef. cbn in Ef.
  destruct v as [dim per natoms ntypes origin box types coords charge]. cbn in Ef.
  unfold setup_checks, swap_setup_box. cbn.
  destruct per, origin, box as [b|], types, coords; try reflexivity.
  assert (b = m_box m) as -> by (destruct (bool_decide _); congruence).
  unfold triclinic_check. rewrite <- (tilted_agree _ _ Hag).
  repeat split_if; reflexivity.
Qed.

Lemma setup_validate_box d a m args :
  setup_validate d a m = Ok args -> SetupArgs.box args = m_box m.
Proof.
  unfold setup_validate. intros E.
  destruct (setup_fields d a m SetupVars.init (fieldID m)) as [v|] eqn:Ef; [|discriminate].
  apply setup_checks_ok in E as (_ & _ & _ & Hb & _).
  apply setup_fields_box in Ef. rewrite Hb in Ef. cbn in Ef.
  destruct (bool_decide _); congruence.
Qed.

Lemma setup_local_swap (m : Msg) (b' : list double) (p : Proc Other) :
  box_agree (m_box m) b' ->
  setup_local (with_box m b') p = setup_local m p.
Proof.
  intros Hag. rewrite !setup_local_eq, (setup_validate_swap _ _ _ _ Hag).
  destruct (setup_validate (domain p) (atom p) m) as [args|] eqn:Ev; [|reflexivity].
  apply setup_validate_box in Ev.
  assert (setup_box (swap_args_box b' args) p = setup_box args p) as ->.
  { unfold setup_box. cbn. rewrite Ev. rewrite (box_change_agree _ _ _ _ Hag). reflexivity. }
  destruct args; reflexivity.
Qed.

Lemma step_field_swap m b' v fid :
  step_field (with_box m b') (swap_step_box b' v) fid =
  match step_field m v fid with
  | Ok v1 => Ok (swap_step_box b' v1)
  | Err msg => Err msg
  end.
Proof.
  destruct v as [coords origin box].
  unfold step_field, swap_step_box. destruct box; cbn.
  all: repeat split_if; reflexivity.
Qed.

Lemma step_fields_swap m b' ids : forall v,
  step_fields (with_box m b') (swap_step_box b' v) ids =
  match step_fields m v ids with
  | Ok v1 => Ok (swap_step_box b' v1)
  | Err msg => Err msg
  end.
Proof.
  induction ids as [|fid ids IH]; intros v; cbn [step_fields]; [reflexivity|].
  rewrite step_field_swap.
  destruct (step_field m v fid); [apply IH | reflexivity].
Qed.

Lemma step_local_swap (m : Msg) (b' : list double) (p : Proc Other) :
  box_agree (m_box m) b' ->
  step_local (with_box m b') p = step_local m p.
Proof.
  intros Hag. rewrite !step_local_eq.
  change (fieldID (with_box m b')) with (fieldID m).
  change StepVars.init with (swap_step_box b' StepVars.init) at 1.
  rewrite step_fields_swap.
  destruct (step_fields m StepVars.init (fieldID m)) as [v|] eqn:Ef; [|reflexivity].
  apply step_fields_vars in Ef as (_ & _ & Hb). cbn in Hb.
  destruct v as [coords origin box]. cbn in *.
  destruct coords; [|reflexivity].
  destruct origin as [o|], box as [b|]; try reflexivity.
  assert (b = m_box m) as -> by (destruct (bool_decide _); congruence).
  rewrite !step_box_eq. unfold triclinic_check.
  rewrite <- (tilted_agree _ _ Hag), <- (box_change_agree _ _ _ _ Hag). reflexivity.
Qed.

(** C10. The handlers read the BOX tensor at the entries 0, 3, 4, 6, 7 and 8
    only: from the same state, two SETUP (or two STEP) messages that differ
    in the other entries of BOX at most have the same outcome, on each
    process and for the group: the same failure with the same message, or
    the same state (installed box geometry included), the same counters and
    the same replies. *)
Theorem C10_box_entries_1_2_5_unused (m : Msg) (b' : list double)
    (calls : Z * Z) (w : World Other) :
  box_agree (m_box m) b' ->
  (forall p, setup_local (with_box m b') p = setup_local m p) /\
  (forall p, step_local (with_box m b') p = step_local m p) /\
  setup (with_box m b') calls w = setup m calls w /\
  step (with_box m b') calls w = step m calls w.
Proof.
  intros Hag. destruct calls as [fc nc].
  assert (Hs : forall p, setup_local (with_box m b') p = setup_local m p)
    by (intros p; apply setup_local_swap, Hag).
  assert (Ht : forall p, step_local (with_box m b') p = step_local m p)
    by (intros p; apply step_local_swap, Hag).
  repeat split; try assumption.
  - rewrite !setup_eq, (each_ext _ _ _ Hs). reflexivity.
  - rewrite !step_eq, (each_ext _ _ _ Ht). reflexivity.
Qed.

(** ** The coordinate loop of STEP *)

Lemma remap_step_snd coords nlocal (q : Proc Other) j id :
  snd (remap_step coords nlocal (q, j) id) = wrap32 (j + 3).
Proof. unfold remap_step. split_if; reflexivity. Qed.

Lemma remap_loop_cursor coords nlocal (ids : list Z) : forall (q : Proc Other) j,
  0 <= j -> j + 3 * Z.of_nat (length ids) <= INT_MAX ->
  snd (fold_left (remap_step coords nlocal) ids (q, j)) = j + 3 * Z.of_nat (length ids).
Proof.
  induction ids as [|id ids IH]; intros q j H0 Hmax; cbn [fold_left length] in *.
  - cbn. lia.
  - destruct (remap_step coords nlocal (q, j) id) as [q1 j1] eqn:E.
    pose proof (remap_step_snd coords nlocal q j id) as Hj. rewrite E in Hj. cbn in Hj.
    rewrite wrap32_id in Hj by (unfold INT_MAX in *; lia). subst j1.
    rewrite IH by lia. lia.
Qed.

(** C8. In the loop over the ids [1..natoms] of a STEP, every id moves the
    cursor into the coordinate buffer by exactly 3, owned or not: an id the
    process does not own leaves the process as it is, an owned one has its
    position replaced by the closest image of the received coordinate; after
    the loop the cursor is [3*natoms].  ([natoms] within the range in which
    [3*natoms] is an [int].) *)
Theorem C8_remap_cursor (coords : list double) (p : Proc Other) :
  0 <= Atom.natoms (atom p) ->
  3 * Atom.natoms (atom p) <= INT_MAX ->
  snd (remap coords p) = 3 * Atom.natoms (atom p) /\
  (forall (q : Proc Other) (nlocal j id : Z),
     0 <= j <= INT_MAX - 3 ->
     let m := atom_map (atom q) id in
     snd (remap_step coords nlocal (q, j) id) = j + 3 /\
     (m < 0 \/ nlocal <= m -> fst (remap_step coords nlocal (q, j) id) = q) /\
     (0 <= m < nlocal ->
      fst (remap_step coords nlocal (q, j) id)
      = set_atom (atom_set_x m (closest_image (domain q) (other q)
                                  (atom_x (atom q) m) (at3 coords j)) (atom q)) q)).
Proof.
  intros H0 Hmax. split.
  - unfold remap. rewrite wrap32_id by (unfold INT_MAX in *; lia).
    rewrite remap_loop_cursor; rewrite ?length_seqZ; lia.
  - intros q nlocal j id Hj m. split; [|split].
    + rewrite remap_step_snd. apply wrap32_id. unfold INT_MAX in *. lia.
    + intros Hm. unfold remap_step. fold m.
      destruct ((m <? 0) || (m >=? nlocal)) eqn:E; [reflexivity|].
      apply orb_false_elim in E as [E1 E2]. lia.
    + intros Hm. unfold remap_step. fold m.
      destruct ((m <? 0) || (m >=? nlocal)) eqn:E; [|reflexivity].
      apply orb_true_iff in E as [E|E]; lia.
Qed.

(** ** The reply *)

Lemma allreduce_double_lookup (count : Z) (send : list (list double)) (r : nat) b :
  send !! r = Some b ->
  MPI_Allreduce_SUM_DOUBLE count send !! r
  = Some (map (fun k => fsum (map (fun b => rdf b k) send)) (seqZ 0 count)).
Proof.
  intros Hr. unfold MPI_Allreduce_SUM_DOUBLE.
  rewrite list_lookup_fmap, Hr. reflexivity.
Qed.

Lemma allreduce_double_length (count : Z) (send : list (list double)) :
  length (MPI_Allreduce_SUM_DOUBLE count send) = length send.
Proof. unfold MPI_Allreduce_SUM_DOUBLE. apply length_map. Qed.

(** The energy of one process: the two terms of its pair style. *)
Lemma local_eng_eq (p : Proc Other) :
  local_eng p = PrimFloat.add (Pair.eng_vdwl (Force.pair (force p)))
                              (Pair.eng_coul (Force.pair (force p))).
Proof. reflexivity. Qed.

(** The virial of one process: that of the pair style, plus that of the
    long-range solver when there is one. *)
Lemma local_virial_eq (p : Proc Other) (k : Z) :
  0 <= k < 6 ->
  rdf (local_virial p) k =
  match Force.kspace (force p) with
  | Some ks => PrimFloat.add (rdf (Pair.virial (Force.pair (force p))) k)
                             (rdf (KSpace.virial ks) k)
  | None => rdf (Pair.virial (Force.pair (force p))) k
  end.
Proof.
  intros Hk. unfold local_virial.
  assert (k = 0 \/ k = 1 \/ k = 2 \/ k = 3 \/ k = 4 \/ k = 5) as Hcases by lia.
  destruct (Force.kspace (force p));
    destruct Hcases as [->|[->|[->|[->|[->| ->]]]]]; reflexivity.
Qed.

Lemma allreduce_eng (ps : list (Proc Other)) (r : nat) (p : Proc Other) :
  ps !! r = Some p ->
  MPI_Allreduce_SUM_DOUBLE 1 (map (fun p => [local_eng p]) ps) !! r = Some [engall ps].
Proof.
  intros Hr.
  rewrite (allreduce_double_lookup 1 _ r [local_eng p])
    by (rewrite list_lookup_fmap, Hr; reflexivity).
  change (seqZ 0 1) with [0]. cbn [map]. unfold engall. do 3 f_equal.
  clear Hr. induction ps as [|q ps IH]; cbn [map]; [reflexivity|].
  rewrite IH. reflexivity.
Qed.

Lemma allreduce_virial (ps : list (Proc Other)) (r : nat) (p : Proc Other) :
  ps !! r = Some p ->
  MPI_Allreduce_SUM_DOUBLE 6 (map local_virial ps) !! r = Some (vall ps).
Proof.
  intros Hr.
  rewrite (allreduce_double_lookup 6 _ r (local_virial p))
    by (rewrite list_lookup_fmap, Hr; reflexivity).
  unfold vall. f_equal. apply map_ext. intros k. f_equal.
  clear Hr. induction ps as [|q ps IH]; cbn [map]; [reflexivity|].
  rewrite IH. reflexivity.
Qed.

Lemma send_fev_eq (id : Z) (w : World Other) :
  exists sends,
    send_fev id w = Done tt (mkWorld (procs w) (outbox w ++ [sends])) /\
    length sends = length (procs w) /\
    forall (r : nat) (p : Proc Other), procs w !! r = Some p ->
      sends !! r = Some (fev_send id p [engall (procs w)] (vall (procs w))).
Proof.
  unfold send_fev. eexists. split; [reflexivity|]. split.
  - rewrite length_zip_with, length_zip, !allreduce_double_length, !length_map. lia.
  - intros r p Hr. rewrite lookup_zip_with, Hr. cbn [mbind option_bind].
    rewrite lookup_zip_with, (allreduce_eng _ r p Hr), (allreduce_virial _ r p Hr).
    reflexivity.
Qed.

(** C3. In the reply sent after a force evaluation, every process packs as
    ENERGY the sum over the group of the local energies (the two energy terms
    of the pair style) and as VIRIAL the six component-wise sums of the local
    virials (the pair virial, plus the long-range virial when a long-range
    solver is defined); the values are the same on every rank.  The sums are
    binary64 sums taken in rank order. *)
Theorem C3_reply_sums (id : Z) (w : World Other) :
  exists sends,
    send_fev id w = Done tt (mkWorld (procs w) (outbox w ++ [sends])) /\
    length sends = length (procs w) /\
    (forall (r : nat) (p : Proc Other), procs w !! r = Some p ->
       sends !! r =
       Some (mkSend id 3
               [ pack_parallel FORCES 4 (Atom.nlocal (atom p)) (local_ids p) 3
                               (local_forces p);
                 pack_double ENERGY (fsum (map local_eng (procs w)));
                 pack VIRIAL 4 6
                      (map (fun k => fsum (map (fun q => rdf (local_virial q) k) (procs w)))
                           (seqZ 0 6)) ])) /\
    (forall p : Proc Other,
       local_eng p = PrimFloat.add (Pair.eng_vdwl (Force.pair (force p)))
                                   (Pair.eng_coul (Force.pair (force p)))) /\
    (forall (p : Proc Other) (k : Z), 0 <= k < 6 ->
       rdf (local_virial p) k =
       match Force.kspace (force p) with
       | Some ks => PrimFloat.add (rdf (Pair.virial (Force.pair (force p))) k)
                                  (rdf (KSpace.virial ks) k)
       | None => rdf (Pair.virial (Force.pair (force p))) k
       end).
Proof.
  destruct (send_fev_eq id w) as (sends & E & Hlen & Hr).
  exists sends. split; [exact E|]. split; [exact Hlen|]. split; [|split].
  - intros r p Hp. rewrite (Hr r p Hp). reflexivity.
  - intros p. reflexivity.
  - intros p k Hk. apply local_virial_eq. exact Hk.
Qed.

(** ** The message loop *)

Lemma send_fev_reply (id : Z) (w : World Other) :
  exists sends,
    send_fev id w = Done tt (mkWorld (procs w) (outbox w ++ [sends])) /\
    length sends = length (procs w) /\
    Forall (is_reply id) sends.
Proof.
  destruct (send_fev_eq id w) as (sends & E & Hlen & Hr).
  exists sends. split; [exact E|]. split; [exact Hlen|].
  apply Forall_lookup. intros i s Hs.
  assert (is_Some (procs w !! i)) as [p Hp].
  { apply lookup_lt_is_Some. rewrite <- Hlen. apply (lookup_lt_Some _ _ _ Hs). }
  rewrite (Hr i p Hp) in Hs. inversion Hs. split; reflexivity.
Qed.

Lemma setup_outbox (m : Msg) (calls calls' : Z * Z) (w w' : World Other) :
  setup m calls w = Done calls' w' ->
  calls' = (wrap32 (fst calls + 1), wrap32 (snd calls + 1)) /\
  exists sends, outbox w' = outbox w ++ [sends] /\ Forall (is_reply (msgID m)) sends.
Proof.
  destruct calls as [fc nc]. rewrite setup_eq.
  destruct (each (setup_local m) (procs w)) as [ns ps|]; [|discriminate].
  cbn zeta. destruct (each_with setup_count _ ps) as [u ps2|]; [|discriminate].
  destruct (send_fev_reply (msgID m) (mkWorld (setup_minimal 1 (lmp_init ps2)) (outbox w)))
    as (sends & -> & _ & Hf).
  intros E. inversion E; subst. split; [reflexivity|]. exists sends. split; [reflexivity|exact Hf].
Qed.

Lemma step_outbox (m : Msg) (calls calls' : Z * Z) (w w' : World Other) :
  step m calls w = Done calls' w' ->
  fst calls' = wrap32 (fst calls + 1) /\
  exists sends, outbox w' = outbox w ++ [sends] /\ Forall (is_reply (msgID m)) sends.
Proof.
  destruct calls as [fc nc]. rewrite step_eq.
  destruct (each (step_local m) (procs w)) as [us ps|]; [|discriminate].
  cbn zeta.
  match goal with
  | |- context [send_fev ?i ?x] =>
      destruct (send_fev_reply i x) as (sends & -> & _ & Hf)
  end.
  intros E. inversion E; subst. split; [reflexivity|]. exists sends. split; [reflexivity|exact Hf].
Qed.

(** The loop on a SETUP and on a STEP. *)
Lemma serve_setup (m : Msg) (rest : list Msg) (calls : Z * Z) (w : World Other) :
  msgID m = SETUP ->
  serve (m :: rest) calls w =
  match setup m calls w with
  | Done calls' w' => serve rest calls' w'
  | Fatal msg w' => Fatal msg w'
  end.
Proof. intros E. cbn [serve]. unfold turn. rewrite E. reflexivity. Qed.

Lemma serve_step (m : Msg) (rest : list Msg) (calls : Z * Z) (w : World Other) :
  msgID m = STEP ->
  serve (m :: rest) calls w =
  match step m calls w with
  | Done calls' w' => serve rest calls' w'
  | Fatal msg w' => Fatal msg w'
  end.
Proof. intros E. cbn [serve]. unfold turn. rewrite E. reflexivity. Qed.

(** After exchanges that all succeed, the loop goes on with what follows. *)
Lemma serve_app (msgs rest : list Msg) : forall (calls calls' : Z * Z) (w w' : World Other),
  Forall (fun m => msgID m = SETUP \/ msgID m = STEP) msgs ->
  serve msgs calls w = Done (calls', []) w' ->
  serve (msgs ++ rest) calls w = serve rest calls' w'.
Proof.
  induction msgs as [|m msgs IH]; intros calls calls' w w' Hall E.
  - cbn in E. inversion E; subst. reflexivity.
  - apply Forall_cons in Hall as [Hm Hall]. cbn [app].
    destruct Hm as [Hm|Hm].
    + rewrite serve_setup in * by exact Hm.
      destruct (setup m calls w) as [c1 w1|]; [|discriminate]. eauto.
    + rewrite serve_step in * by exact Hm.
      destruct (step m calls w) as [c1 w1|]; [|discriminate]. eauto.
Qed.

(** Each exchange adds one reply of three fields to what was sent. *)
Lemma serve_outbox (msgs : list Msg) : forall (calls calls' : Z * Z) (w w' : World Other),
  Forall (fun m => msgID m = SETUP \/ msgID m = STEP) msgs ->
  serve msgs calls w = Done (calls', []) w' ->
  exists replies,
    outbox w' = outbox w ++ replies /\
    length replies = length msgs /\
    Forall (Forall (fun s => send_nfield s = 3)) replies.
Proof.
  induction msgs as [|m msgs IH]; intros calls calls' w w' Hall E.
  - cbn in E. inversion E; subst. exists []. rewrite app_nil_r. repeat split. constructor.
  - apply Forall_cons in Hall as [Hm Hall].
    assert (exists c1 w1 sends, serve msgs c1 w1 = Done (calls', []) w' /\
              outbox w1 = outbox w ++ [sends] /\ Forall (is_reply (msgID m)) sends)
      as (c1 & w1 & sends & E1 & Ho & Hf).
    { destruct Hm as [Hm|Hm].
      - rewrite serve_setup in E by exact Hm.
        destruct (setup m calls w) as [c1 w1|] eqn:Es; [|discriminate].
        apply setup_outbox in Es as (_ & sends & Ho & Hf). eauto 10.
      - rewrite serve_step in E by exact Hm.
        destruct (step m calls w) as [c1 w1|] eqn:Es; [|discriminate].
        apply step_outbox in Es as (_ & sends & Ho & Hf). eauto 10. }
    destruct (IH _ _ _ _ Hall E1) as (replies & Ho' & Hlen & Hr).
    exists (sends :: replies). rewrite Ho', Ho, <- app_assoc. cbn.
    repeat split; [congruence|].
    constructor; [|exact Hr].
    eapply Forall_impl; [exact Hf|]. intros s [_ Hs]. exact Hs.
Qed.

(** C9. After any number of SETUP/STEP exchanges (all of them answered), the
    end of the session, as a message with a negative id or as the end of
    the stream, ends the loop: every process sends one closing message with
    id 0 and no field, after the replies of the exchanges (one per exchange,
    each of three fields), and what follows the closing message in the stream
    is never read. *)
Theorem C9_session_end (msgs : list Msg) (t : Msg) (rest : list Msg)
    (calls : Z * Z) (w w' : World Other) :
  Forall (fun m => msgID m = SETUP \/ msgID m = STEP) msgs ->
  serve msgs (0, 0) w = Done (calls, []) w' ->
  msgID t < 0 ->
  let closing := map (fun _ => mkSend 0 0 []) (procs w') in
  loop (msgs ++ t :: rest) w
    = Done (calls, rest) (mkWorld (procs w') (outbox w' ++ [closing])) /\
  loop msgs w
    = Done (calls, []) (mkWorld (procs w') (outbox w' ++ [closing])) /\
  exists replies,
    outbox w' = outbox w ++ replies /\
    length replies = length msgs /\
    Forall (Forall (fun s => send_nfield s = 3)) replies.
Proof.
  intros Hall E Ht closing. split; [|split].
  - unfold loop. run_monad. rewrite (serve_app _ _ _ _ _ _ Hall E).
    cbn [serve]. unfold turn. destruct (Z.ltb_spec (msgID t) 0); [reflexivity | lia].
  - unfold loop. run_monad. rewrite E. reflexivity.
  - exact (serve_outbox _ _ _ _ _ Hall E).
Qed.

(** ** STEP with no SETUP before it *)

Lemma step_fields_known (m : Msg) (ids : list Z) : forall v,
  Forall (fun fid => fid = COORDS \/ fid = ORIGIN \/ fid = BOX) ids ->
  exists v', step_fields m v ids = Ok v'.
Proof.
  induction ids as [|fid ids IH]; intros v Hall; cbn [step_fields]; [eauto|].
  apply Forall_cons in Hall as [Hfid Hall].
  assert (exists v1, step_field m v fid = Ok v1) as [v1 ->].
  { destruct v. destruct Hfid as [->|[->| ->]]; cbn; eauto. }
  apply IH, Hall.
Qed.

(** A STEP of known fields with its COORDS passes on a process, unless it
    brings a tilted box (with an origin) to an orthogonal server. *)
Lemma step_local_done (m : Msg) (p : Proc Other) :
  Forall (fun fid => fid = COORDS \/ fid = ORIGIN \/ fid = BOX) (fieldID m) ->
  COORDS ∈ fieldID m ->
  (ORIGIN ∈ fieldID m -> BOX ∈ fieldID m ->
   triclinic_check (domain p) (m_box m) = Ok tt) ->
  exists p', step_local m p = Done tt p'.
Proof.
  intros Hall Hc Hbox. rewrite step_local_eq.
  destruct (step_fields_known m (fieldID m) StepVars.init Hall) as [v Ef]. rewrite Ef.
  apply step_fields_vars in Ef as (Hcv & Hov & Hbv).
  rewrite bool_decide_eq_true_2 in Hcv by exact Hc. rewrite Hcv, Hov, Hbv.
  cbn [StepVars.origin StepVars.box StepVars.init].
  destruct (decide (ORIGIN ∈ fieldID m)) as [Ho|Ho];
    [rewrite (bool_decide_eq_true_2 _ Ho) | rewrite (bool_decide_eq_false_2 _ Ho); cbn; eauto].
  destruct (decide (BOX ∈ fieldID m)) as [Hb|Hb];
    [rewrite (bool_decide_eq_true_2 _ Hb) | rewrite (bool_decide_eq_false_2 _ Hb); cbn; eauto].
  rewrite step_box_eq, (Hbox Ho Hb). eauto.
Qed.

(** C1, as the code has it.  The loop keeps no record of a SETUP.  A STEP
    that is the first message of the session is handled like any STEP: with
    its COORDS, no unknown field and no tilted box for an orthogonal server,
    it is not an error; forces are evaluated ([forcecalls] becomes 1), every
    process sends a STEP reply of three fields, and the loop goes on with the
    next message. *)
Theorem C1_step_needs_no_setup (m : Msg) (rest : list Msg) (w : World Other) :
  msgID m = STEP ->
  Forall (fun fid => fid = COORDS \/ fid = ORIGIN \/ fid = BOX) (fieldID m) ->
  COORDS ∈ fieldID m ->
  (forall p, p ∈ procs w -> ORIGIN ∈ fieldID m -> BOX ∈ fieldID m ->
     triclinic_check (domain p) (m_box m) = Ok tt) ->
  exists neighcalls w1 sends,
    step m (0, 0) w = Done (1, neighcalls) w1 /\
    outbox w1 = outbox w ++ [sends] /\
    length sends = length (procs w1) /\
    Forall (is_reply STEP) sends /\
    loop (m :: rest) w = (r <- serve rest (1, neighcalls) ;; cs_send 0 0 ;;; ret r) w1.
Proof.
  intros Hid Hall Hc Hbox.
  destruct (each_all_done (step_local m) (procs w)) as (us & ps & Ee & _).
  { intros p Hp. destruct (step_local_done m p Hall Hc (Hbox p Hp)) as [p' E]. eauto. }
  pose proof (step_eq m 0 0 w) as Es. rewrite Ee in Es. cbn zeta in Es.
  match type of Es with
  | context [send_fev ?i ?x] =>
      destruct (send_fev_reply i x) as (sends & Ef & Hlen & Hf)
  end.
  rewrite Ef in Es. rewrite Hid in Hf.
  eexists _, _, sends. split; [exact Es|].
  split; [reflexivity|]. split; [exact Hlen|]. split; [exact Hf|].
  unfold loop. run_monad. rewrite (serve_step m rest (0, 0) w Hid), Es. reflexivity.
Qed.

(** ** The atoms a process takes out of a SETUP *)

Lemma aset_take {A} (d v : A) (n : nat) (l : list A) :
  (n <= length l)%nat ->
  take (S n) (aset d (Z.of_nat n) v l) = take n l ++ [v].
Proof.
  intros Hn. unfold aset. rewrite Nat2Z.id.
  destruct (decide (n < length l)%nat) as [Hlt|Hge].
  - rewrite take_S_r with (x := v) by (apply list_lookup_insert_eq; exact Hlt).
    rewrite take_insert_ge by lia. reflexivity.
  - assert (length l = n) as Hl by lia.
    rewrite Hl, Nat.sub_diag. cbn [replicate app].
    rewrite take_ge by (rewrite length_app; cbn; lia).
    rewrite take_ge by lia. reflexivity.
Qed.

Lemma aset_length {A} (d v : A) (n : nat) (l : list A) :
  (n <= length l)%nat -> (S n <= length (aset d (Z.of_nat n) v l))%nat.
Proof.
  intros Hn. unfold aset. rewrite Nat2Z.id.
  destruct (decide (n < length l)%nat) as [Hlt|Hge].
  - rewrite length_insert. lia.
  - rewrite !length_app, length_replicate. cbn. lia.
Qed.

Lemma scatter_step_eq (a : SetupArgs.t) (q : Proc Other) (nlocal i : Z) :
  scatter_step a (q, nlocal) i =
  if owns (SetupArgs.coords a) q i
  then (set_atom (added_atom a q nlocal i) q, nlocal + 1)
  else (q, nlocal).
Proof.
  unfold scatter_step, owns, added_atom.
  destruct (ownatom _ _ _ _); reflexivity.
Qed.

Lemma added_atom_tag (a : SetupArgs.t) (q : Proc Other) (nlocal i : Z) :
  Atom.tag (added_atom a q nlocal i) = aset 0 nlocal (i + 1) (Atom.tag (atom q)).
Proof. unfold added_atom. destruct (SetupArgs.charge a); reflexivity. Qed.

Lemma added_atom_nlocal (a : SetupArgs.t) (q : Proc Other) (nlocal i : Z) :
  Atom.nlocal (added_atom a q nlocal i) = Atom.nlocal (atom q) + 1.
Proof. unfold added_atom. destruct (SetupArgs.charge a); reflexivity. Qed.

(** What the atom loop keeps true: the process's box data are untouched, the
    local count is the loop's counter, and the first [nlocal] tags are the
    ids taken so far, in order. *)
Lemma scatter_loop (a : SetupArgs.t) (idx : list Z) : forall (q : Proc Other) (k : nat),
  Atom.nlocal (atom q) = Z.of_nat k ->
  (k <= length (Atom.tag (atom q)))%nat ->
  let own := fun i => owns (SetupArgs.coords a) q i in
  let r := fold_left (scatter_step a) idx (q, Z.of_nat k) in
  let k' := (k + length (filter own idx))%nat in
  domain (fst r) = domain q /\
  other (fst r) = other q /\
  snd r = Z.of_nat k' /\
  Atom.nlocal (atom (fst r)) = Z.of_nat k' /\
  (k' <= length (Atom.tag (atom (fst r))))%nat /\
  take k' (Atom.tag (atom (fst r)))
  = take k (Atom.tag (atom q)) ++ ((fun i => i + 1) <$> filter own idx).
Proof.
  induction idx as [|i idx IH]; intros q k Hk Hlen; cbn zeta.
  - cbn. rewrite Nat.add_0_r, app_nil_r. repeat split; try reflexivity; assumption.
  - cbn [fold_left]. rewrite filter_cons, scatter_step_eq.
    destruct (owns (SetupArgs.coords a) q i) eqn:Eo.
    + rewrite decide_True by exact I.
      replace (Z.of_nat k + 1) with (Z.of_nat (S k)) by lia.
      specialize (IH (set_atom (added_atom a q (Z.of_nat k) i) q) (S k)). cbn zeta in IH.
      change (fun i0 => owns (SetupArgs.coords a)
                          (set_atom (added_atom a q (Z.of_nat k) i) q) i0)
        with (fun i0 => owns (SetupArgs.coords a) q i0) in IH.
      destruct IH as (Hd & Ho & Hs & Hn & Hl & Ht).
      * cbn. rewrite added_atom_nlocal. lia.
      * cbn. rewrite added_atom_tag. apply aset_length, Hlen.
      * cbn [length fmap list_fmap].
        rewrite <- plus_n_Sm, <- plus_Sn_m.
        split; [exact Hd|]. split; [exact Ho|]. split; [exact Hs|].
        split; [exact Hn|]. split; [exact Hl|].
        rewrite Ht. cbn [atom set_atom]. rewrite added_atom_tag, aset_take by exact Hlen.
        rewrite <- app_assoc. reflexivity.
    + rewrite decide_False by exact id.
      apply (IH q k Hk Hlen).
Qed.

Lemma setup_field_coords d a m v fid v' :
  setup_field d a m v fid = Ok v' ->
  SetupVars.coords v' = if fid =? COORDS then Some (m_coords m) else SetupVars.coords v.
Proof.
  destruct v. unfold setup_field.
  repeat split_if; intros E; inversion E; subst; clear E; cbn; try reflexivity;
    try (exfalso; unfold DIM, PERIODICITY, ORIGIN, BOX, NATOMS, NTYPES, TYPES, COORDS,
           CHARGE in *; lia).
Qed.

Lemma setup_fields_coords d a m ids : forall v v',
  setup_fields d a m v ids = Ok v' ->
  SetupVars.coords v' =
  if bool_decide (COORDS ∈ ids) then Some (m_coords m) else SetupVars.coords v.
Proof.
  induction ids as [|fid ids IH]; intros v v' E; cbn in E.
  - inversion E; subst. reflexivity.
  - destruct (setup_field d a m v fid) as [v1|] eqn:E1; [|discriminate].
    rewrite (IH _ _ E), bool_decide_cons_eq. apply setup_field_coords in E1. rewrite E1.
    destruct (fid =? COORDS), (bool_decide (COORDS ∈ ids)); reflexivity.
Qed.

Lemma setup_validate_coords d a m args :
  setup_validate d a m = Ok args -> SetupArgs.coords args = m_coords m.
Proof.
  unfold setup_validate. intros E.
  destruct (setup_fields d a m SetupVars.init (fieldID m)) as [v|] eqn:Ef; [|discriminate].
  apply setup_checks_ok in E as (_ & _ & _ & _ & _ & Hc & _).
  apply setup_fields_coords in Ef. rewrite Hc in Ef. cbn in Ef.
  destruct (bool_decide _); congruence.
Qed.

(** A process that passes the checks of a SETUP holds exactly the atoms it
    owns: its local count is their number and its tags are their ids. *)
Lemma setup_local_done (m : Msg) (p p' : Proc Other) (n : Z) :
  setup_local m p = Done n p' ->
  n = m_natoms m /\
  0 <= n /\
  local_ids p' = owned_ids (m_coords m) n p' /\
  Atom.nlocal (atom p') = Z.of_nat (length (local_ids p')).
Proof.
  rewrite setup_local_eq.
  destruct (setup_validate (domain p) (atom p) m) as [args|] eqn:Ev; [|discriminate].
  intros E. inversion E as [[Hn Hp]]. clear E.
  destruct (setup_validate_natoms _ _ _ _ Ev) as [H0 Hnm].
  apply setup_validate_coords in Ev.
  set (q0 := clear_atoms (setup_box args p)) in *.
  pose proof (scatter_loop args (seqZ 0 (SetupArgs.natoms args)) q0 0 eq_refl
                (Nat.le_0_l _)) as Hloop.
  cbn zeta in Hloop. change (Z.of_nat 0) with 0 in Hloop.
  fold (scatter args q0) in Hloop. rewrite Hp in Hloop.
  destruct Hloop as (Hd & Ho & _ & Hnl & _ & Ht).
  rewrite take_0 in Ht. cbn [app Nat.add] in *.
  assert (Hown : forall i, owns (SetupArgs.coords args) q0 i = owns (m_coords m) p' i).
  { intros i. unfold owns. rewrite Hd, Ho, Ev. reflexivity. }
  assert (Hids : local_ids p' = owned_ids (m_coords m) n p').
  { unfold local_ids, owned_ids. rewrite Hnl, Nat2Z.id, Ht. f_equal.
    rewrite <- Hn. apply list_filter_iff. intros i. rewrite Hown. reflexivity. }
  rewrite Hp, Hn.
  split; [congruence|]. split; [lia|]. split; [exact Hids|].
  rewrite Hnl. f_equal. unfold local_ids. rewrite Hnl, Nat2Z.id, Ht.
  rewrite length_fmap. reflexivity.
Qed.

Lemma each_done_post {A} (c : M (Proc Other) A) (Q : A -> Proc Other -> Prop)
    (ps : list (Proc Other)) :
  (forall p a p', c p = Done a p' -> Q a p') ->
  forall r ps', each c ps = Done r ps' -> Forall2 Q r ps'.
Proof.
  intros Hc. induction ps as [|p ps IH]; intros r ps' E; cbn in E.
  - inversion E. constructor.
  - destruct (c p) as [a p1|] eqn:Ec;
      destruct (each c ps) as [r1 ps1|] eqn:Ee; try discriminate.
    inversion E; subst. constructor; [eapply Hc, Ec | apply IH; reflexivity].
Qed.

(** ** Counting the atoms of the group *)

Lemma owned_ids_elem (coords : list double) (n : Z) (p : Proc Other) (x : Z) :
  x ∈ owned_ids coords n p <-> 1 <= x <= n /\ owns coords p (x - 1) = true.
Proof.
  unfold owned_ids. rewrite list_elem_of_fmap. split.
  - intros (i & -> & Hi). apply list_elem_of_filter in Hi as [Ho Hi].
    apply elem_of_seqZ in Hi. replace (i + 1 - 1) with i by lia.
    split; [lia|]. apply Is_true_true. exact Ho.
  - intros [Hx Ho]. exists (x - 1). split; [lia|].
    apply list_elem_of_filter. split; [apply Is_true_true; exact Ho|].
    apply elem_of_seqZ. lia.
Qed.

Lemma owned_ids_NoDup (coords : list double) (n : Z) (p : Proc Other) :
  NoDup (owned_ids coords n p).
Proof.
  unfold owned_ids. apply NoDup_fmap_2_strong.
  - intros x y _ _ Hxy. lia.
  - apply NoDup_filter, NoDup_seqZ.
Qed.

Lemma concat_owned_elem (coords : list double) (n : Z) (ps : list (Proc Other)) (x : Z) :
  x ∈ concat (map (owned_ids coords n) ps) ->
  exists q, q ∈ ps /\ x ∈ owned_ids coords n q.
Proof.
  induction ps as [|p ps IH]; cbn [map concat]; intros Hx.
  - inversion Hx.
  - apply elem_of_app in Hx as [Hx|Hx].
    + exists p. split; [left | exact Hx].
    + destruct (IH Hx) as (q & Hq & Hxq). exists q. split; [right; exact Hq | exact Hxq].
Qed.

Lemma concat_owned_NoDup (coords : list double) (n : Z) (ps : list (Proc Other)) :
  (forall i, 0 <= i < n -> one_owner_at_most coords ps i) ->
  NoDup (concat (map (owned_ids coords n) ps)).
Proof.
  induction ps as [|p ps IH]; intros Hone; cbn [map concat]; [constructor|].
  apply NoDup_app. split; [apply owned_ids_NoDup|]. split.
  - intros x Hx Hrest. apply owned_ids_elem in Hx as [Hr Hp].
    apply concat_owned_elem in Hrest as (q & Hq & Hxq).
    apply owned_ids_elem in Hxq as [_ Hoq].
    specialize (Hone (x - 1) ltac:(lia)). unfold one_owner_at_most in Hone.
    rewrite filter_cons, decide_True in Hone by (apply Is_true_true; exact Hp).
    assert (q ∈ filter (fun p => owns coords p (x - 1)) ps) as Hin
      by (apply list_elem_of_filter; split; [apply Is_true_true; exact Hoq | exact Hq]).
    destruct (filter (fun p => owns coords p (x - 1)) ps); [inversion Hin|].
    cbn in Hone. lia.
  - apply IH. intros i Hi. specialize (Hone i Hi). unfold one_owner_at_most in *.
    rewrite filter_cons in Hone. destruct (decide _); cbn in Hone; lia.
Qed.

Lemma isum_nlocal (ps : list (Proc Other)) :
  Forall (fun p => Atom.nlocal (atom p) = Z.of_nat (length (local_ids p))) ps ->
  isum (map (fun p => Atom.nlocal (atom p)) ps)
  = Z.of_nat (length (concat (map local_ids ps))).
Proof.
  induction 1 as [|p ps Hp _ IH]; cbn [map concat isum foldr]; [reflexivity|].
  fold (isum (map (fun p => Atom.nlocal (atom p)) ps)).
  rewrite IH, Hp, length_app. lia.
Qed.

Lemma concat_local_owned (coords : list double) (n : Z) (ps : list (Proc Other)) :
  Forall (fun p => local_ids p = owned_ids coords n p) ps ->
  concat (map local_ids ps) = concat (map (owned_ids coords n) ps).
Proof.
  induction 1 as [|p ps Hp _ IH]; cbn [map concat]; [reflexivity|].
  rewrite IH, Hp. reflexivity.
Qed.

(** When no atom has two owners and the count is right, the ids held by the
    group are [1..natoms], each once. *)
Lemma owned_partition (coords : list double) (n : Z) (ps : list (Proc Other)) :
  (forall i, 0 <= i < n -> one_owner_at_most coords ps i) ->
  wrap32 (Z.of_nat (length (concat (map (owned_ids coords n) ps)))) = n ->
  concat (map (owned_ids coords n) ps) ≡ₚ seqZ 1 n.
Proof.
  intros Hone Hcount.
  set (L := concat (map (owned_ids coords n) ps)) in *.
  assert (Hsub : L ⊆+ seqZ 1 n).
  { apply NoDup_submseteq; [apply concat_owned_NoDup, Hone|].
    intros x Hx. apply concat_owned_elem in Hx as (q & _ & Hx).
    apply owned_ids_elem in Hx as [Hx _]. apply elem_of_seqZ. lia. }
  pose proof (submseteq_length _ _ Hsub) as Hlen. rewrite length_seqZ in Hlen.
  pose proof (wrap32_range (Z.of_nat (length L))) as Hr. rewrite Hcount in Hr.
  apply submseteq_length_Permutation; [exact Hsub|].
  rewrite length_seqZ.
  rewrite wrap32_id in Hcount by (unfold INT_MAX in *; lia). lia.
Qed.


Lemma Forall2_both {A B} (P : A -> Prop) (Q : B -> Prop) (l : list A) (k : list B) :
  Forall2 (fun a b => P a /\ Q b) l k -> Forall P l /\ Forall Q k.
Proof.
  induction 1 as [|a b l k [Ha Hb] _ [IH1 IH2]]; split; constructor; assumption.
Qed.



End Claims.

(** * The claims on concrete sessions

    The instance [Run.engine], a group of two processes, and the messages of
    [Run]. *)

Import Run.

Lemma in_world0 (P : Proc Z -> Prop) :
  P (proc0 0) -> P (proc0 1) -> forall p, p ∈ procs world0 -> P p.
Proof.
  intros H0 H1 p Hp. cbn in Hp.
  apply elem_of_cons in Hp as [->|Hp]; [exact H0|].
  apply elem_of_cons in Hp as [->|Hp]; [exact H1|].
  inversion Hp.
Defined.

(** C1, run: a STEP as the first message of a session is answered: no error,
    one force evaluation, a STEP reply of three fields from each of the two
    processes, then the closing message. *)
Lemma C1_step_first_is_answered :
  exists w',
    loop [step3] world0 = Done ((1, 0), []) w' /\
    map (map send_msgID) (outbox w') = [[STEP; STEP]; [0; 0]] /\
    map (map send_nfield) (outbox w') = [[3; 3]; [0; 0]].
Proof.
  eexists. split; [vm_compute; reflexivity|].
  split; vm_compute; reflexivity.
Qed.

Lemma C1_witness :
  exists neighcalls w1, step step3 (0, 0) world0 = Done (1, neighcalls) w1.
Proof.
  destruct (C1_step_needs_no_setup step3 [] world0) as (nc & w1 & sends & E & _).
  - reflexivity.
  - repeat constructor.
  - constructor.
  - intros p _ Ho. exfalso. apply elem_of_cons in Ho as [Ho|Ho]; [discriminate | inversion Ho].
  - exists nc, w1. exact E.
Defined.


(** C3, run: the two processes, with local energies 1 and 2, both pack the
    energy 3 and the virial (3, 3, 3, 0, 0, 0). *)
Lemma C3_witness :
  exists sends,
    send_fev STEP world0 = Done tt (mkWorld (procs world0) (outbox world0 ++ [sends])) /\
    map send_fields sends
    = [ [pack_parallel FORCES 4 0 [] 3 []; pack_double ENERGY 3%float;
         pack VIRIAL 4 6 [3%float; 3%float; 3%float; 0%float; 0%float; 0%float]];
        [pack_parallel FORCES 4 0 [] 3 []; pack_double ENERGY 3%float;
         pack VIRIAL 4 6 [3%float; 3%float; 3%float; 0%float; 0%float; 0%float]] ].
Proof.
  destruct (C3_reply_sums STEP world0) as (sends & E & _).
  exists sends. split; [exact E|].
  vm_compute in E. inversion E. reflexivity.
Defined.

(** C4, run: a STEP that brings a tilted box without an origin to the
    orthogonal server is answered like any STEP, and the domains are what
    they were. *)
Lemma C4_tilted_box_without_origin_passes :
  exists w',
    step step_xy_no_origin (0, 0) world0 = Done (1, 0) w' /\
    map domain (procs w') = map domain (procs world0) /\
    map (map send_msgID) (outbox w') = [[STEP; STEP]].
Proof.
  eexists. split; [vm_compute; reflexivity|].
  split; vm_compute; reflexivity.
Qed.

Lemma C4_witness :
  (exists msg, setup setup_xy (0, 0) world0 = Fatal msg world0) /\
  (exists msg, step step_xy (0, 0) world0 = Fatal msg world0).
Proof.
  split.
  - apply (C4_tilted_box_rejected setup_xy (0, 0) world0).
    + discriminate.
    + apply in_world0; reflexivity.
    + repeat constructor.
    + reflexivity.
  - apply (C4_tilted_box_rejected step_xy (0, 0) world0).
    + discriminate.
    + apply in_world0; reflexivity.
    + repeat constructor.
    + reflexivity.
    + repeat constructor.
Defined.

(** C5, run: a SETUP with NATOMS = 0 passes every check and is answered. *)
Lemma C5_zero_atoms_accepted :
  (exists args, setup_validate domain0 atom0 setup0 = Ok args /\ SetupArgs.natoms args = 0) /\
  (exists w', setup setup0 (0, 0) world0 = Done (1, 1) w' /\
              map (map send_msgID) (outbox w') = [[SETUP; SETUP]]).
Proof.
  split; eexists; (split; [vm_compute; reflexivity|]); vm_compute; reflexivity.
Qed.

Lemma C5_witness : exists msg, setup_validate domain0 atom0 setup_neg = Err msg.
Proof.
  apply (proj1 (C5_natoms_not_negative domain0 atom0 setup_neg)).
  reflexivity.
Defined.


(** C8, run: three atoms on the process, the cursor ends at 9. *)
Lemma C8_witness : snd (remap coords3 proc3) = 9.
Proof.
  change 9 with (3 * Atom.natoms (atom proc3)).
  refine (proj1 (C8_remap_cursor coords3 proc3 _ _)).
  - vm_compute. discriminate.
  - vm_compute. discriminate.
Defined.

(** C9, run: a SETUP and a STEP, then the closing message; the STEP that
    follows it is never read. *)
Lemma C9_witness :
  loop ([setup3; step3] ++ bye :: [step3]) world0
  = Done (fst served3, [step3])
         (mkWorld (procs (snd served3))
                  (outbox (snd served3)
                   ++ [map (fun _ => mkSend 0 0 []) (procs (snd served3))])).
Proof.
  refine (proj1 (C9_session_end [setup3; step3] bye [step3] (fst served3) world0
                   (snd served3) _ _ _)).
  - constructor; [left; reflexivity|]. constructor; [right; reflexivity|]. constructor.
  - vm_compute. reflexivity.
  - reflexivity.
Defined.

(** C10, run: the entries 1, 2 and 5 of the box of [setup3] replaced. *)
Lemma C10_witness :
  setup (with_box setup3 box0_other) (0, 0) world0 = setup setup3 (0, 0) world0.
Proof.
  apply (C10_box_entries_1_2_5_unused setup3 box0_other (0, 0) world0).
  repeat split; reflexivity.
Defined.

(** * Further properties

    What the code does beyond the claims: the constructor, the complete
    tests of SETUP and STEP, the coordinate loop, the atom loop with charges,
    and the message loop on failures. *)

Ltac field_ids := unfold DIM, PERIODICITY, ORIGIN, BOX, NATOMS, NTYPES, TYPES, COORDS, CHARGE in *.

(** One turn of the field loop of SETUP that does not fail: the variable of
    the field is set from the message, the others are kept. *)
Lemma setup_field_vars d a m v fid v' :
  setup_field d a m v fid = Ok v' ->
  v' = SetupVars.mk
         (if fid =? DIM then m_dim m else SetupVars.dim v)
         (if fid =? PERIODICITY then Some (m_periodicity m) else SetupVars.periodicity v)
         (if fid =? NATOMS then m_natoms m else SetupVars.natoms v)
         (if fid =? NTYPES then m_ntypes m else SetupVars.ntypes v)
         (if fid =? ORIGIN then Some (m_origin m) else SetupVars.origin v)
         (if fid =? BOX then Some (m_box m) else SetupVars.box v)
         (if fid =? TYPES then Some (m_types m) else SetupVars.types v)
         (if fid =? COORDS then Some (m_coords m) else SetupVars.coords v)
         (if fid =? CHARGE then Some (m_charge m) else SetupVars.charge v).
Proof.
  destruct v. unfold setup_field. cbn [SetupVars.dim SetupVars.periodicity SetupVars.natoms
    SetupVars.ntypes SetupVars.origin SetupVars.box SetupVars.types SetupVars.coords
    SetupVars.charge].
  destruct (Z.eqb_spec fid DIM) as [->|H1].
  { split_if; intros E; inversion E; reflexivity. }
  destruct (Z.eqb_spec fid PERIODICITY) as [->|H2].
  { split_if; intros E; inversion E; reflexivity. }
  destruct (Z.eqb_spec fid ORIGIN) as [->|H3].
  { intros E; inversion E; reflexivity. }
  destruct (Z.eqb_spec fid BOX) as [->|H4].
  { intros E; inversion E; reflexivity. }
  destruct (Z.eqb_spec fid NATOMS) as [->|H5].
  { split_if; intros E; inversion E; reflexivity. }
  destruct (Z.eqb_spec fid NTYPES) as [->|H6].
  { split_if; intros E; inversion E; reflexivity. }
  destruct (Z.eqb_spec fid TYPES) as [->|H7].
  { intros E; inversion E; reflexivity. }
  destruct (Z.eqb_spec fid COORDS) as [->|H8].
  { intros E; inversion E; reflexivity. }
  destruct (Z.eqb_spec fid CHARGE) as [->|H9].
  { intros E; inversion E; reflexivity. }
  discriminate.
Qed.

Lemma setup_field_ok_iff d a m v fid :
  (exists v', setup_field d a m v fid = Ok v') <-> setup_field_ok d a m fid.
Proof.
  unfold setup_field_ok. destruct v. unfold setup_field.
  destruct (Z.eqb_spec fid DIM) as [->|H1].
  { destruct (Z.eqb_spec (m_dim m) (Domain.dimension d)) as [E|E]; cbn [negb]; split.
    - intros _. field_ids. repeat split; try lia; try discriminate; try (intros _; exact E).
    - eauto.
    - intros [v' Hv]. discriminate.
    - intros (_ & H & _). exfalso. apply E, H. reflexivity. }
  destruct (Z.eqb_spec fid PERIODICITY) as [->|H2].
  { destruct (periodicity_differs (m_periodicity m) d) eqn:Ep; split.
    - intros [v' Hv]. discriminate.
    - intros (_ & _ & H & _). exfalso.
      apply (proj1 (periodicity_differs_spec m d) Ep), H. reflexivity.
    - intros _. field_ids. repeat split; try lia; try discriminate. intros _.
      destruct (periodicity_differs_spec m d) as [_ H].
      unfold periodicity_matches.
      destruct (decide ((rd (m_periodicity m) 0, rd (m_periodicity m) 1,
                         rd (m_periodicity m) 2) = Domain.periodicity d)) as [Hd|Hd];
        [exact Hd|]. specialize (H Hd). congruence.
    - eauto. }
  destruct (Z.eqb_spec fid ORIGIN) as [->|H3].
  { split; [|eauto]. intros _. field_ids. repeat split; try lia; discriminate. }
  destruct (Z.eqb_spec fid BOX) as [->|H4].
  { split; [|eauto]. intros _. field_ids. repeat split; try lia; discriminate. }
  destruct (Z.eqb_spec fid NATOMS) as [->|H5].
  { rewrite max_atoms_test_false. split; [|eauto].
    intros _. field_ids. repeat split; try lia; discriminate. }
  destruct (Z.eqb_spec fid NTYPES) as [->|H6].
  { destruct (Z.eqb_spec (m_ntypes m) (Atom.ntypes a)) as [E|E]; cbn [negb]; split.
    - intros _. field_ids. repeat split; try lia; try discriminate; try (intros _; exact E).
    - eauto.
    - intros [v' Hv]. discriminate.
    - intros (_ & _ & _ & H). exfalso. apply E, H. reflexivity. }
  destruct (Z.eqb_spec fid TYPES) as [->|H7].
  { split; [|eauto]. intros _. field_ids. repeat split; try lia; discriminate. }
  destruct (Z.eqb_spec fid COORDS) as [->|H8].
  { split; [|eauto]. intros _. field_ids. repeat split; try lia; discriminate. }
  destruct (Z.eqb_spec fid CHARGE) as [->|H9].
  { split; [|eauto]. intros _. field_ids. repeat split; try lia; discriminate. }
  split.
  - intros [v' Hv]. discriminate.
  - intros (Hr & _). exfalso. field_ids. lia.
Qed.

Lemma setup_fields_ok d a m ids : forall v v',
  setup_fields d a m v ids = Ok v' ->
  Forall (setup_field_ok d a m) ids /\
  v' = SetupVars.mk
         (if bool_decide (DIM ∈ ids) then m_dim m else SetupVars.dim v)
         (if bool_decide (PERIODICITY ∈ ids) then Some (m_periodicity m)
          else SetupVars.periodicity v)
         (if bool_decide (NATOMS ∈ ids) then m_natoms m else SetupVars.natoms v)
         (if bool_decide (NTYPES ∈ ids) then m_ntypes m else SetupVars.ntypes v)
         (if bool_decide (ORIGIN ∈ ids) then Some (m_origin m) else SetupVars.origin v)
         (if bool_decide (BOX ∈ ids) then Some (m_box m) else SetupVars.box v)
         (if bool_decide (TYPES ∈ ids) then Some (m_types m) else SetupVars.types v)
         (if bool_decide (COORDS ∈ ids) then Some (m_coords m) else SetupVars.coords v)
         (if bool_decide (CHARGE ∈ ids) then Some (m_charge m) else SetupVars.charge v).
Proof.
  induction ids as [|fid ids IH]; intros v v' E; cbn [setup_fields] in E.
  - inversion E; subst. split; [constructor|]. destruct v'; reflexivity.
  - destruct (setup_field d a m v fid) as [v1|] eqn:E1; [|discriminate].
    destruct (IH _ _ E) as [Hall Hv'].
    split.
    + constructor; [|exact Hall]. apply (setup_field_ok_iff d a m v fid). eauto.
    + apply setup_field_vars in E1. rewrite Hv', E1.
      cbn [SetupVars.dim SetupVars.periodicity SetupVars.natoms SetupVars.ntypes
           SetupVars.origin SetupVars.box SetupVars.types SetupVars.coords
           SetupVars.charge].
      rewrite !bool_decide_cons_eq.
      f_equal;
        match goal with
        | |- context [(fid =? ?c) || bool_decide ?P] =>
            destruct (fid =? c), (bool_decide P); reflexivity
        end.
Qed.

Lemma setup_fields_complete d a m ids : forall v,
  Forall (setup_field_ok d a m) ids -> exists v', setup_fields d a m v ids = Ok v'.
Proof.
  induction ids as [|fid ids IH]; intros v Hall; cbn [setup_fields]; [eauto|].
  apply Forall_cons in Hall as [Hf Hall].
  destruct (proj2 (setup_field_ok_iff d a m v fid) Hf) as [v1 ->].
  apply IH, Hall.
Qed.

Lemma setup_required_elem (ids : list Z) :
  Forall (fun fid => fid ∈ ids) setup_required <->
  DIM ∈ ids /\ PERIODICITY ∈ ids /\ ORIGIN ∈ ids /\ BOX ∈ ids /\
  NATOMS ∈ ids /\ NTYPES ∈ ids /\ TYPES ∈ ids /\ COORDS ∈ ids.
Proof.
  unfold setup_required. rewrite !Forall_cons, Forall_nil. tauto.
Qed.

(** SETUP passes its tests exactly when the message is acceptable, and then
    works with the payloads of the message. *)
Lemma setup_validate_iff d a m args :
  setup_validate d a m = Ok args <-> setup_acceptable d a m /\ args = setup_args_of m.
Proof.
  unfold setup_validate, setup_acceptable. split.
  - intros E.
    destruct (setup_fields d a m SetupVars.init (fieldID m)) as [v|] eqn:Ef; [|discriminate].
    apply setup_fields_ok in Ef as [Hall Hv]. cbn in Hv.
    unfold setup_checks in E. rewrite Hv in E.
    cbn [SetupVars.dim SetupVars.periodicity SetupVars.natoms SetupVars.ntypes
         SetupVars.origin SetupVars.box SetupVars.types SetupVars.coords
         SetupVars.charge] in E.
    rewrite setup_required_elem.
    destruct (decide (PERIODICITY ∈ fieldID m)) as [Hp|Hp];
      [rewrite (bool_decide_eq_true_2 _ Hp) in E
      |rewrite (bool_decide_eq_false_2 _ Hp) in E; discriminate].
    destruct (decide (ORIGIN ∈ fieldID m)) as [Ho|Ho];
      [rewrite (bool_decide_eq_true_2 _ Ho) in E
      |rewrite (bool_decide_eq_false_2 _ Ho) in E; discriminate].
    destruct (decide (BOX ∈ fieldID m)) as [Hb|Hb];
      [rewrite (bool_decide_eq_true_2 _ Hb) in E
      |rewrite (bool_decide_eq_false_2 _ Hb) in E; discriminate].
    destruct (decide (TYPES ∈ fieldID m)) as [Ht|Ht];
      [rewrite (bool_decide_eq_true_2 _ Ht) in E
      |rewrite (bool_decide_eq_false_2 _ Ht) in E; discriminate].
    destruct (decide (COORDS ∈ fieldID m)) as [Hc|Hc];
      [rewrite (bool_decide_eq_true_2 _ Hc) in E
      |rewrite (bool_decide_eq_false_2 _ Hc) in E; discriminate].
    destruct (decide (DIM ∈ fieldID m)) as [Hd|Hd];
      [rewrite (bool_decide_eq_true_2 _ Hd) in E
      |rewrite (bool_decide_eq_false_2 _ Hd) in E; discriminate].
    destruct (decide (NATOMS ∈ fieldID m)) as [Hn|Hn];
      [rewrite (bool_decide_eq_true_2 _ Hn) in E
      |rewrite (bool_decide_eq_false_2 _ Hn) in E;
       rewrite orb_true_r in E; discriminate].
    destruct (decide (NTYPES ∈ fieldID m)) as [Hy|Hy];
      [rewrite (bool_decide_eq_true_2 _ Hy) in E
      |rewrite (bool_decide_eq_false_2 _ Hy) in E;
       rewrite orb_true_r in E; discriminate].
    destruct ((m_dim m =? 0) || (m_natoms m <? 0) || (m_ntypes m <? 0)) eqn:Er;
      [discriminate|].
    apply orb_false_elim in Er as [Er Er3]. apply orb_false_elim in Er as [Er1 Er2].
    destruct (bool_decide (is_Some _) && (Atom.q_flag a =? 0)) eqn:Eq; [discriminate|].
    unfold triclinic_check in E.
    destruct (tilted (m_box m) && (Domain.triclinic d =? 0)) eqn:Et; [discriminate|].
    inversion E as [Hargs]. clear E.
    assert (Hfo : forall fid, fid ∈ fieldID m -> setup_field_ok d a m fid)
      by (apply Forall_forall, Hall).
    destruct (Hfo _ Hd) as (_ & Hdim & _). destruct (Hfo _ Hp) as (_ & _ & Hper & _).
    destruct (Hfo _ Hy) as (_ & _ & _ & Hnt).
    split; [|unfold setup_args_of; reflexivity].
    split; [eapply Forall_impl; [exact Hall|]; intros fid Hf; apply Hf|].
    split; [tauto|].
    split; [apply Hdim; reflexivity|]. split; [lia|].
    split; [apply Hper; reflexivity|].
    split; [apply Hnt; reflexivity|]. split; [lia|]. split; [lia|].
    split.
    + intros Hch. rewrite (bool_decide_eq_true_2 (CHARGE ∈ fieldID m) Hch) in Eq.
      cbn in Eq. lia.
    + intros Hti. rewrite Hti in Et. cbn in Et. lia.
  - intros [(Hknown & Hreq & Hdim & Hdim0 & Hper & Hnt & Hnt0 & Hn0 & Hq & Ht) ->].
    apply setup_required_elem in Hreq as (Hd & Hp & Ho & Hb & Hn & Hy & Hty & Hc).
    destruct (setup_fields_complete d a m (fieldID m) SetupVars.init) as [v Ef].
    { apply Forall_forall. intros fid Hin.
      split; [apply (proj1 (Forall_forall _ _) Hknown fid Hin)|].
      repeat split; intros _; assumption. }
    rewrite Ef. apply setup_fields_ok in Ef as [_ ->]. cbn. unfold setup_checks.
    cbn [SetupVars.dim SetupVars.periodicity SetupVars.natoms SetupVars.ntypes
         SetupVars.origin SetupVars.box SetupVars.types SetupVars.coords
         SetupVars.charge].
    rewrite (bool_decide_eq_true_2 _ Hd), (bool_decide_eq_true_2 _ Hp),
      (bool_decide_eq_true_2 _ Ho), (bool_decide_eq_true_2 _ Hb),
      (bool_decide_eq_true_2 _ Hn), (bool_decide_eq_true_2 _ Hy),
      (bool_decide_eq_true_2 _ Hty), (bool_decide_eq_true_2 _ Hc).
    replace ((m_dim m =? 0) || (m_natoms m <? 0) || (m_ntypes m <? 0)) with false
      by (symmetry; rewrite !orb_false_iff; repeat split; lia).
    assert (bool_decide (is_Some (if bool_decide (CHARGE ∈ fieldID m)
                                  then Some (m_charge m) else None))
            && (Atom.q_flag a =? 0) = false) as ->.
    { destruct (decide (CHARGE ∈ fieldID m)) as [Hch|Hch].
      - rewrite (bool_decide_eq_true_2 _ Hch). specialize (Hq Hch).
        apply andb_false_iff. right. lia.
      - rewrite (bool_decide_eq_false_2 _ Hch). apply andb_false_iff. left.
        apply bool_decide_eq_false_2. intros [x Hx]. discriminate. }
    unfold triclinic_check.
    assert (tilted (m_box m) && (Domain.triclinic d =? 0) = false) as ->.
    { destruct (tilted (m_box m)) eqn:Eti; [|reflexivity]. specialize (Ht eq_refl).
      cbn. lia. }
    reflexivity.
Qed.

Lemma step_fields_ok m ids : forall v v',
  step_fields m v ids = Ok v' -> Forall step_known ids.
Proof.
  induction ids as [|fid ids IH]; intros v v' E; cbn [step_fields] in E; [constructor|].
  destruct (step_field m v fid) as [v1|] eqn:E1; [|discriminate].
  constructor; [|eapply IH, E].
  destruct v. unfold step_field in E1. unfold step_known.
  destruct (Z.eqb_spec fid COORDS); [tauto|].
  destruct (Z.eqb_spec fid ORIGIN); [tauto|].
  destruct (Z.eqb_spec fid BOX); [tauto|]. discriminate.
Qed.

Lemma step_fields_unknown m ids v :
  ~ Forall step_known ids -> step_fields m v ids = Err "Server md step field unknown".
Proof.
  intros Hn. destruct (step_fields m v ids) as [v'|msg] eqn:E.
  - exfalso. apply Hn. eapply step_fields_ok, E.
  - apply step_fields_err in E. rewrite E. reflexivity.
Qed.

Section OneProcess.

Context {Other : Type} `{!Lammps Other}.

(** SETUP on one process ends well exactly for an acceptable message, and
    then with the atoms of the message scattered over the emptied process. *)
Lemma setup_local_done_iff (m : Msg) (p : Proc Other) (n : Z) (p' : Proc Other) :
  setup_local m p = Done n p' <->
  setup_acceptable (domain p) (atom p) m /\ n = m_natoms m /\
  p' = scatter (setup_args_of m) (clear_atoms (setup_box (setup_args_of m) p)).
Proof.
  rewrite setup_local_eq.
  destruct (setup_validate (domain p) (atom p) m) as [args|msg] eqn:Ev; split.
  - apply setup_validate_iff in Ev as [Ha ->]. intros E. inversion E; subst.
    split; [exact Ha|]. split; reflexivity.
  - apply setup_validate_iff in Ev as [Ha ->]. intros (_ & -> & ->). reflexivity.
  - discriminate.
  - intros (Ha & _). exfalso.
    assert (setup_validate (domain p) (atom p) m = Ok (setup_args_of m)) as E
      by (apply setup_validate_iff; split; [exact Ha | reflexivity]).
    congruence.
Qed.

(** A SETUP that fails on a process leaves the process as it was. *)
Lemma setup_local_fatal_state (m : Msg) (p : Proc Other) (msg : string) (p' : Proc Other) :
  setup_local m p = Fatal msg p' -> p' = p.
Proof.
  rewrite setup_local_eq.
  destruct (setup_validate (domain p) (atom p) m); intros E; inversion E; reflexivity.
Qed.


(** X3. What a STEP message does on one process, case by case.  A field id
    other than COORDS, ORIGIN and BOX: fatal, 'step field unknown'.  Known
    fields but no COORDS: fatal, 'Required server md step field not
    received'.  COORDS with both ORIGIN and BOX and a tilted box on a server
    that is not triclinic: fatal, 'not initialized for a triclinic box'.  In
    these three cases the process is left as it was.  COORDS with both ORIGIN
    and BOX otherwise: the box is installed, the global and the local box are
    set again, and the coordinates are remapped.  COORDS with ORIGIN or BOX
    missing: the coordinates are remapped in the box the server has. *)
Theorem X3_step_decision (m : Msg) (p : Proc Other) :
  (~ Forall step_known (fieldID m) ->
     step_local m p = Fatal "Server md step field unknown" p) /\
  (Forall step_known (fieldID m) -> COORDS ∉ fieldID m ->
     step_local m p = Fatal "Required server md step field not received" p) /\
  (Forall step_known (fieldID m) -> COORDS ∈ fieldID m ->
   ORIGIN ∈ fieldID m -> BOX ∈ fieldID m ->
   tilted (m_box m) = true -> Domain.triclinic (domain p) = 0 ->
     step_local m p = Fatal "Server md is not initialized for a triclinic box" p) /\
  (Forall step_known (fieldID m) -> COORDS ∈ fieldID m ->
   ORIGIN ∈ fieldID m -> BOX ∈ fieldID m ->
   (tilted (m_box m) = true -> Domain.triclinic (domain p) <> 0) ->
     step_local m p
     = Done tt (fst (remap (m_coords m)
                       (set_local_box (set_global_box
                          (set_domain (box_change (m_origin m) (m_box m) (domain p)) p)))))) /\
  (Forall step_known (fieldID m) -> COORDS ∈ fieldID m ->
   ORIGIN ∉ fieldID m \/ BOX ∉ fieldID m ->
     step_local m p = Done tt (fst (remap (m_coords m) p))).
Proof.
  assert (Hok : Forall step_known (fieldID m) ->
          step_fields m StepVars.init (fieldID m)
          = Ok (StepVars.mk
                  (if bool_decide (COORDS ∈ fieldID m) then Some (m_coords m) else None)
                  (if bool_decide (ORIGIN ∈ fieldID m) then Some (m_origin m) else None)
                  (if bool_decide (BOX ∈ fieldID m) then Some (m_box m) else None))).
  { intros Hk. destruct (step_fields_known m (fieldID m) StepVars.init Hk) as [v Ef].
    rewrite Ef. apply step_fields_vars in Ef as (Hc & Ho & Hb).
    destruct v. cbn in *. congruence. }
  split; [|split; [|split; [|split]]].
  - intros Hn. rewrite step_local_eq, (step_fields_unknown _ _ _ Hn). reflexivity.
  - intros Hk Hc. rewrite step_local_eq, (Hok Hk). cbn [StepVars.coords].
    rewrite (bool_decide_eq_false_2 _ Hc). reflexivity.
  - intros Hk Hc Ho Hb Ht Hd. rewrite step_local_eq, (Hok Hk).
    cbn [StepVars.coords StepVars.origin StepVars.box].
    rewrite (bool_decide_eq_true_2 _ Hc), (bool_decide_eq_true_2 _ Ho),
      (bool_decide_eq_true_2 _ Hb), step_box_eq, (triclinic_check_tilted _ _ Ht Hd).
    reflexivity.
  - intros Hk Hc Ho Hb Ht. rewrite step_local_eq, (Hok Hk).
    cbn [StepVars.coords StepVars.origin StepVars.box].
    rewrite (bool_decide_eq_true_2 _ Hc), (bool_decide_eq_true_2 _ Ho),
      (bool_decide_eq_true_2 _ Hb), step_box_eq.
    unfold triclinic_check.
    destruct (tilted (m_box m)) eqn:Et; [|reflexivity].
    specialize (Ht eq_refl). cbn.
    destruct (Z.eqb_spec (Domain.triclinic (domain p)) 0); [contradiction | reflexivity].
  - intros Hk Hc Hob. rewrite step_local_eq, (Hok Hk).
    cbn [StepVars.coords StepVars.origin StepVars.box].
    rewrite (bool_decide_eq_true_2 _ Hc).
    destruct Hob as [Ho|Hb].
    + rewrite (bool_decide_eq_false_2 _ Ho). reflexivity.
    + rewrite (bool_decide_eq_false_2 _ Hb).
      destruct (bool_decide (ORIGIN ∈ fieldID m)); reflexivity.
Qed.

(** STEP on one process, as a function of which fields the message lists. *)
Lemma step_local_by_membership (m : Msg) (p : Proc Other) :
  step_local m p =
  if bool_decide (Forall step_known (fieldID m)) then
    if bool_decide (COORDS ∈ fieldID m) then
      if bool_decide (ORIGIN ∈ fieldID m) && bool_decide (BOX ∈ fieldID m) then
        match triclinic_check (domain p) (m_box m) with
        | Ok _ => Done tt (fst (remap (m_coords m)
                      (set_local_box (set_global_box
                         (set_domain (box_change (m_origin m) (m_box m) (domain p)) p)))))
        | Err msg => Fatal msg p
        end
      else Done tt (fst (remap (m_coords m) p))
    else Fatal "Required server md step field not received" p
  else Fatal "Server md step field unknown" p.
Proof.
  case_bool_decide as Hk.
  2:{ rewrite step_local_eq, (step_fields_unknown _ _ _ Hk). reflexivity. }
  rewrite step_local_eq.
  destruct (step_fields_known m (fieldID m) StepVars.init Hk) as [v Ef].
  rewrite Ef. apply step_fields_vars in Ef as (Hc & Ho & Hb).
  rewrite Hc, Ho, Hb. cbn [StepVars.coords StepVars.origin StepVars.box StepVars.init].
  destruct (bool_decide (COORDS ∈ fieldID m)); [|reflexivity].
  destruct (bool_decide (ORIGIN ∈ fieldID m)), (bool_decide (BOX ∈ fieldID m));
    cbn [andb]; try reflexivity.
  rewrite step_box_eq. destruct (triclinic_check (domain p) (m_box m)); reflexivity.
Qed.

Lemma setup_acceptable_ext d a (m : Msg) (ids' : list Z) :
  (forall fid, fid ∈ fieldID m <-> fid ∈ ids') ->
  setup_acceptable d a m -> setup_acceptable d a (with_fieldID m ids').
Proof.
  intros Hext (Hknown & Hreq & Hrest).
  unfold setup_acceptable. cbn [with_fieldID fieldID m_dim m_ntypes m_natoms m_box].
  split.
  { apply Forall_forall. intros fid Hin.
    apply (proj1 (Forall_forall _ _) Hknown fid), Hext, Hin. }
  split.
  { eapply Forall_impl; [exact Hreq|]. intros fid Hin. apply Hext, Hin. }
  destruct Hrest as (H1 & H2 & H3 & H4 & H5 & H6 & H7 & H8).
  repeat split; try assumption.
  intros Hc. apply H7, Hext, Hc.
Qed.

(** X2. The handlers look at the list of field ids of a message only to know
    which fields it has: two messages with the same payloads whose lists hold
    the same ids, in any order and with any repetitions, are treated alike.
    SETUP ends well on a process for the one exactly when it does for the
    other, with the same result and the same state; it fails for the one
    only if it fails for the other, the process unchanged (the error reported
    may differ, being that of the first field that fails); STEP gives the
    same outcome. *)
Theorem X2_field_order_irrelevant (m : Msg) (ids' : list Z) (p : Proc Other) :
  (forall fid, fid ∈ fieldID m <-> fid ∈ ids') ->
  (forall n p', setup_local (with_fieldID m ids') p = Done n p' <->
                setup_local m p = Done n p') /\
  (forall msg p', setup_local (with_fieldID m ids') p = Fatal msg p' ->
                  exists msg', setup_local m p = Fatal msg' p') /\
  step_local (with_fieldID m ids') p = step_local m p.
Proof.
  intros Hext.
  assert (Hargs : setup_args_of (with_fieldID m ids') = setup_args_of m).
  { unfold setup_args_of. cbn [with_fieldID fieldID m_natoms m_origin m_box m_types
                               m_coords m_charge].
    rewrite (bool_decide_ext _ _ (Hext CHARGE)). reflexivity. }
  assert (Hacc : setup_acceptable (domain p) (atom p) (with_fieldID m ids') <->
                 setup_acceptable (domain p) (atom p) m).
  { split.
    - intros Ha.
      pose proof (setup_acceptable_ext _ _ (with_fieldID m ids') (fieldID m)
                    (fun fid => iff_sym (Hext fid)) Ha) as Hb.
      destruct m. exact Hb.
    - apply setup_acceptable_ext, Hext. }
  assert (Hdone : forall n p', setup_local (with_fieldID m ids') p = Done n p' <->
                               setup_local m p = Done n p').
  { intros n p'.
    rewrite (setup_local_done_iff (with_fieldID m ids') p n p'),
            (setup_local_done_iff m p n p'), Hargs, Hacc.
    reflexivity. }
  split; [exact Hdone|]. split.
  - intros msg p' E.
    pose proof (setup_local_fatal_state _ _ _ _ E) as ->.
    destruct (setup_local m p) as [n q|msg' q] eqn:E'.
    + pose proof (proj2 (Hdone n q) eq_refl). congruence.
    + pose proof (setup_local_fatal_state _ _ _ _ E') as ->. eauto.
  - rewrite !step_local_by_membership.
    cbn [with_fieldID fieldID m_coords m_origin m_box].
    rewrite (bool_decide_ext _ _ (Hext COORDS)), (bool_decide_ext _ _ (Hext ORIGIN)),
      (bool_decide_ext _ _ (Hext BOX)).
    rewrite (bool_decide_ext (Forall step_known ids') (Forall step_known (fieldID m))).
    + reflexivity.
    + rewrite !Forall_forall. split; intros H fid Hin; apply H, Hext, Hin.
Qed.

End OneProcess.

Lemma aset_nth {A} (d v : A) (i : Z) (l : list A) (k : nat) :
  nth k (aset d i v l) d = if decide (k = Z.to_nat i) then v else nth k l d.
Proof.
  unfold aset. set (n := Z.to_nat i).
  destruct (decide (n < length l)%nat) as [Hlt|Hge].
  - destruct (decide (k = n)) as [->|Hne].
    + apply nth_lookup_Some. apply list_lookup_insert_eq. exact Hlt.
    + rewrite !nth_lookup. rewrite list_lookup_insert_ne by congruence. reflexivity.
  - destruct (decide (k = n)) as [->|Hne].
    + rewrite app_assoc, app_nth2; rewrite length_app, length_replicate; [|lia].
      replace (n - (length l + (n - length l)))%nat with 0%nat by lia. reflexivity.
    + destruct (decide (k < length l)%nat) as [Hk|Hk].
      * rewrite app_nth1 by exact Hk. reflexivity.
      * rewrite app_nth2 by lia. rewrite (nth_overflow l) by lia.
        destruct (decide (k - length l < n - length l)%nat) as [Hk2|Hk2].
        -- rewrite app_nth1 by (rewrite length_replicate; exact Hk2).
           rewrite nth_lookup, lookup_replicate_2 by exact Hk2. reflexivity.
        -- rewrite app_nth2 by (rewrite length_replicate; lia).
           rewrite length_replicate. apply nth_overflow. cbn. lia.
Qed.

Lemma atom_x_set (a : Atom.t) (m : Z) (v : vec3) (k : Z) :
  0 <= m ->
  atom_x (atom_set_x m v a) k = if k =? m then v else atom_x a k.
Proof.
  intros Hm. unfold atom_x, atom_set_x. cbn [Atom.x].
  destruct (Z.ltb_spec k 0) as [Hk|Hk].
  - destruct (Z.eqb_spec k m); [lia | reflexivity].
  - rewrite aset_nth.
    destruct (Z.eqb_spec k m) as [->|Hne].
    + rewrite decide_True by reflexivity. reflexivity.
    + rewrite decide_False by lia. reflexivity.
Qed.

Section Remap.

Context {Other : Type} `{!Lammps Other}.

(** One turn of the coordinate loop: nothing but one owned position changes. *)
Lemma remap_step_frame coords nlocal (q : Proc Other) (j id : Z) :
  let r := remap_step coords nlocal (q, j) id in
  except_x (fst r) = except_x q /\
  forall k, ~ (atom_map (atom q) id = k /\ 0 <= k < nlocal) ->
            atom_x (atom (fst r)) k = atom_x (atom q) k.
Proof.
  cbn zeta. unfold remap_step.
  destruct ((atom_map (atom q) id <? 0) || (atom_map (atom q) id >=? nlocal)) eqn:E.
  - split; [reflexivity|]. intros k _. reflexivity.
  - apply orb_false_elim in E as [E1 E2]. split; [reflexivity|].
    intros k Hk. cbn [fst atom set_atom]. rewrite atom_x_set by lia.
    destruct (Z.eqb_spec k (atom_map (atom q) id)) as [->|]; [|reflexivity].
    exfalso. apply Hk. split; [reflexivity | lia].
Qed.

Lemma except_x_map (q q' : Proc Other) :
  except_x q' = except_x q ->
  domain q' = domain q /\ other q' = other q /\
  Atom.nlocal (atom q') = Atom.nlocal (atom q) /\
  Atom.natoms (atom q') = Atom.natoms (atom q) /\
  forall id, atom_map (atom q') id = atom_map (atom q) id.
Proof.
  unfold except_x. intros E. inversion E as [[Hd Hn Hg Hna Hnt Hqf Ht Hty Hq Hf Hm Hfo Hu Ho]].
  repeat split; try assumption. intros id. unfold atom_map. rewrite Hm. reflexivity.
Qed.

Lemma remap_loop_frame coords nlocal (ids : list Z) : forall (q : Proc Other) (j : Z),
  let r := fold_left (remap_step coords nlocal) ids (q, j) in
  except_x (fst r) = except_x q /\
  forall k, (forall id, id ∈ ids -> ~ (atom_map (atom q) id = k /\ 0 <= k < nlocal)) ->
            atom_x (atom (fst r)) k = atom_x (atom q) k.
Proof.
  induction ids as [|id ids IH]; intros q j; cbn zeta; cbn [fold_left].
  - split; [reflexivity|]. intros k _. reflexivity.
  - destruct (remap_step coords nlocal (q, j) id) as [q1 j1] eqn:E.
    pose proof (remap_step_frame coords nlocal q j id) as [Hf Hx]. rewrite E in Hf, Hx.
    cbn [fst] in Hf, Hx.
    destruct (IH q1 j1) as [IHf IHx]. split; [congruence|].
    intros k Hk. rewrite IHx.
    + apply Hx, Hk. left.
    + intros id' Hin. destruct (except_x_map _ _ Hf) as (_ & _ & _ & _ & Hmap).
      rewrite Hmap. apply Hk. right. exact Hin.
Qed.

(** X9. The coordinate loop of STEP writes positions and nothing else: the
    domain, the counts, the tags, types, charges, forces, the atom map and
    the rest of the process are what they were, and the position at a local
    index is unchanged unless some id of 1..natoms is mapped to that index
    and the index is that of an owned atom (0 <= index < nlocal). *)
Theorem X9_remap_frame (coords : list double) (p : Proc Other) :
  except_x (fst (remap coords p)) = except_x p /\
  forall k,
    (forall id, 1 <= id <= wrap32 (Atom.natoms (atom p)) ->
       ~ (atom_map (atom p) id = k /\ 0 <= k < Atom.nlocal (atom p))) ->
    atom_x (atom (fst (remap coords p))) k = atom_x (atom p) k.
Proof.
  unfold remap.
  destruct (remap_loop_frame coords (Atom.nlocal (atom p))
              (seqZ 1 (wrap32 (Atom.natoms (atom p)))) p 0) as [Hf Hx].
  split; [exact Hf|]. intros k Hk. apply Hx. intros id Hin.
  apply Hk. apply elem_of_seqZ in Hin. lia.
Qed.

(** X8. The coordinate loop of STEP gives every owned atom the coordinate
    the client sent for it: when the atom map sends the id [id0] of 1..natoms
    to the local index [m0] of an owned atom, and no other id of 1..natoms to
    the same index, the position at [m0] after the loop is the closest image,
    to the position before, of the three doubles at 3*(id0-1) in COORDS.
    (3*natoms <= INT_MAX keeps the cursor, a C int, from wrapping.) *)
Theorem X8_remap_places (coords : list double) (p : Proc Other) (id0 : Z) :
  1 <= id0 <= Atom.natoms (atom p) ->
  3 * Atom.natoms (atom p) <= INT_MAX ->
  0 <= atom_map (atom p) id0 < Atom.nlocal (atom p) ->
  (forall id, 1 <= id <= Atom.natoms (atom p) ->
     atom_map (atom p) id = atom_map (atom p) id0 -> id = id0) ->
  atom_x (atom (fst (remap coords p))) (atom_map (atom p) id0)
  = closest_image (domain p) (other p) (atom_x (atom p) (atom_map (atom p) id0))
                  (at3 coords (3 * (id0 - 1))).
Proof.
  set (natoms := Atom.natoms (atom p)). set (m0 := atom_map (atom p) id0).
  intros Hid Hmax Hm Huniq. unfold remap.
  fold natoms. rewrite wrap32_id by (unfold INT_MAX in *; lia).
  set (nlocal := Atom.nlocal (atom p)) in *.
  replace natoms with ((id0 - 1) + (natoms - (id0 - 1))) at 1 by lia.
  rewrite seqZ_app by lia.
  rewrite (seqZ_cons (1 + (id0 - 1))) by lia.
  replace (1 + (id0 - 1)) with id0 by lia.
  rewrite fold_left_app. cbn [fold_left].
  destruct (fold_left (remap_step coords nlocal) (seqZ 1 (id0 - 1)) (p, 0))
    as [q1 j1] eqn:E1.
  pose proof (remap_loop_frame coords nlocal (seqZ 1 (id0 - 1)) p 0) as [Hf1 Hx1].
  pose proof (remap_loop_cursor coords nlocal (seqZ 1 (id0 - 1)) p 0) as Hj1.
  rewrite E1 in Hf1, Hx1, Hj1. cbn [fst snd] in Hf1, Hx1, Hj1.
  rewrite length_seqZ in Hj1. specialize (Hj1 ltac:(lia) ltac:(unfold INT_MAX in *; lia)).
  destruct (except_x_map _ _ Hf1) as (Hd1 & Ho1 & _ & _ & Hmap1).
  assert (Hx1' : atom_x (atom q1) m0 = atom_x (atom p) m0).
  { apply Hx1. intros id Hin [Hid' _]. apply elem_of_seqZ in Hin.
    specialize (Huniq id ltac:(lia) Hid'). lia. }
  destruct (remap_step coords nlocal (q1, j1) id0) as [q2 j2] eqn:E2.
  pose proof (remap_step_frame coords nlocal q1 j1 id0) as [Hf2 _]. rewrite E2 in Hf2.
  cbn [fst] in Hf2.
  assert (Hx2 : atom_x (atom q2) m0
                = closest_image (domain p) (other p) (atom_x (atom p) m0)
                                (at3 coords (3 * (id0 - 1)))).
  { unfold remap_step in E2. rewrite Hmap1 in E2. fold m0 in E2.
    replace ((m0 <? 0) || (m0 >=? nlocal)) with false in E2
      by (symmetry; apply orb_false_iff; split; lia).
    inversion E2. cbn [atom set_atom]. rewrite atom_x_set by lia.
    rewrite Z.eqb_refl, Hx1', Hd1, Ho1, Hj1. f_equal. f_equal. lia. }
  pose proof (remap_loop_frame coords nlocal (seqZ (Z.succ id0) (Z.pred (natoms - (id0 - 1))))
                q2 j2) as [_ Hx3].
  rewrite Hx3; [exact Hx2|].
  intros id Hin [Hid' _]. apply elem_of_seqZ in Hin.
  destruct (except_x_map _ _ Hf2) as (_ & _ & _ & _ & Hmap2).
  rewrite Hmap2, Hmap1 in Hid'.
  specialize (Huniq id ltac:(lia) Hid'). lia.
Qed.

End Remap.

Section Session.

Context {Other : Type} `{!Lammps Other}.

(** A handler that fails has sent nothing. *)
Lemma setup_fatal_outbox (m : Msg) (calls : Z * Z) (w w' : World Other) msg :
  setup m calls w = Fatal msg w' -> outbox w' = outbox w.
Proof.
  destruct calls as [fc nc]. rewrite setup_eq.
  destruct (each (setup_local m) (procs w)) as [ns ps|msg1 ps].
  2:{ intros E. inversion E. reflexivity. }
  cbn zeta. destruct (each_with setup_count _ ps) as [u ps2|msg2 ps2].
  2:{ intros E. inversion E. reflexivity. }
  match goal with
  | |- context [send_fev ?i ?x] => destruct (send_fev_reply i x) as (sends & -> & _)
  end.
  discriminate.
Qed.

Lemma step_fatal_outbox (m : Msg) (calls : Z * Z) (w w' : World Other) msg :
  step m calls w = Fatal msg w' -> outbox w' = outbox w.
Proof.
  destruct calls as [fc nc]. rewrite step_eq.
  destruct (each (step_local m) (procs w)) as [us ps|msg1 ps].
  2:{ intros E. inversion E. reflexivity. }
  cbn zeta.
  match goal with
  | |- context [send_fev ?i ?x] => destruct (send_fev_reply i x) as (sends & -> & _)
  end.
  discriminate.
Qed.

(** X4. A SETUP or STEP message whose handler fails ends the session there:
    after any number of answered exchanges, the loop stops with the handler's
    error in the state the handler left, the failed message gets no reply,
    the closing message is not sent, and the messages after it are not
    read. *)
Theorem X4_failed_message_ends_session (msgs : list Msg) (m : Msg) (rest : list Msg)
    (calls : Z * Z) (w w1 w2 : World Other) (msg : string) :
  Forall (fun m => msgID m = SETUP \/ msgID m = STEP) msgs ->
  serve msgs (0, 0) w = Done (calls, []) w1 ->
  (msgID m = SETUP /\ setup m calls w1 = Fatal msg w2) \/
  (msgID m = STEP /\ step m calls w1 = Fatal msg w2) ->
  loop (msgs ++ m :: rest) w = Fatal msg w2 /\ outbox w2 = outbox w1.
Proof.
  intros Hall E Hm. unfold loop. run_monad. rewrite (serve_app _ _ _ _ _ _ Hall E).
  destruct Hm as [[Hid Ef]|[Hid Ef]].
  - rewrite (serve_setup _ _ _ _ Hid), Ef. split; [reflexivity|].
    eapply setup_fatal_outbox, Ef.
  - rewrite (serve_step _ _ _ _ Hid), Ef. split; [reflexivity|].
    eapply step_fatal_outbox, Ef.
Qed.

(** X5. A message whose id is not negative and is neither SETUP nor STEP
    is a fatal error, 'Server MD received unrecognized message': after any
    number of answered exchanges the loop stops there, the state is what the
    last exchange left, and nothing is sent for the message. *)
Theorem X5_unrecognized_message (msgs : list Msg) (m : Msg) (rest : list Msg)
    (calls : Z * Z) (w w1 : World Other) :
  Forall (fun m => msgID m = SETUP \/ msgID m = STEP) msgs ->
  serve msgs (0, 0) w = Done (calls, []) w1 ->
  0 <= msgID m -> msgID m <> SETUP -> msgID m <> STEP ->
  loop (msgs ++ m :: rest) w = Fatal "Server MD received unrecognized message" w1.
Proof.
  intros Hall E H0 H1 H2. unfold loop. run_monad. rewrite (serve_app _ _ _ _ _ _ Hall E).
  cbn [serve]. unfold turn.
  destruct (Z.ltb_spec (msgID m) 0); [lia|].
  destruct (Z.eqb_spec (msgID m) SETUP); [contradiction|].
  destruct (Z.eqb_spec (msgID m) STEP); [contradiction|]. reflexivity.
Qed.

(** Each exchange adds the reply to its own message. *)
Lemma serve_replies (msgs : list Msg) : forall (calls calls' : Z * Z) (w w' : World Other),
  Forall (fun m => msgID m = SETUP \/ msgID m = STEP) msgs ->
  serve msgs calls w = Done (calls', []) w' ->
  exists replies,
    outbox w' = outbox w ++ replies /\
    Forall2 (fun m sends => Forall (is_reply (msgID m)) sends) msgs replies.
Proof.
  induction msgs as [|m msgs IH]; intros calls calls' w w' Hall E.
  - cbn in E. inversion E; subst. exists []. rewrite app_nil_r. split; [reflexivity|].
    constructor.
  - apply Forall_cons in Hall as [Hm Hall].
    assert (exists c1 w1 sends, serve msgs c1 w1 = Done (calls', []) w' /\
              outbox w1 = outbox w ++ [sends] /\ Forall (is_reply (msgID m)) sends)
      as (c1 & w1 & sends & E1 & Ho & Hf).
    { destruct Hm as [Hm|Hm].
      - rewrite serve_setup in E by exact Hm.
        destruct (setup m calls w) as [c1 w1|] eqn:Es; [|discriminate].
        apply setup_outbox in Es as (_ & sends & Ho & Hf). eauto 10.
      - rewrite serve_step in E by exact Hm.
        destruct (step m calls w) as [c1 w1|] eqn:Es; [|discriminate].
        apply step_outbox in Es as (_ & sends & Ho & Hf). eauto 10. }
    destruct (IH _ _ _ _ Hall E1) as (replies & Ho' & Hr).
    exists (sends :: replies). rewrite Ho', Ho, <- app_assoc. split; [reflexivity|].
    constructor; assumption.
Qed.

(** X6. The replies go out in the order of the messages, each under the id
    of its own message: when the loop ends normally on a stream of SETUP and
    STEP messages, what was sent is what had been sent before, then one group
    of sends per message, in message order, every send of the k-th group with
    the id of the k-th message and three fields, then the closing message. *)
Theorem X6_replies_in_order (msgs : list Msg) (calls : Z * Z) (unread : list Msg)
    (w w' : World Other) :
  Forall (fun m => msgID m = SETUP \/ msgID m = STEP) msgs ->
  loop msgs w = Done (calls, unread) w' ->
  exists replies,
    outbox w' = outbox w ++ replies ++ [map (fun _ => mkSend 0 0 []) (procs w')] /\
    Forall2 (fun m sends => Forall (is_reply (msgID m)) sends) msgs replies.
Proof.
  intros Hall. unfold loop. run_monad.
  destruct (serve msgs (0, 0) w) as [[c u] w1|] eqn:E; [|discriminate].
  intros E'. inversion E'; subst. clear E'.
  assert (unread = []) as ->.
  { clear -Hall E. revert w E. generalize (0, 0). induction msgs as [|m msgs IH];
      intros c0 w E.
    - cbn in E. inversion E. reflexivity.
    - apply Forall_cons in Hall as [[Hm|Hm] Hall].
      + rewrite serve_setup in E by exact Hm.
        destruct (setup m c0 w); [eapply IH; eassumption | discriminate].
      + rewrite serve_step in E by exact Hm.
        destruct (step m c0 w); [eapply IH; eassumption | discriminate]. }
  destruct (serve_replies _ _ _ _ _ Hall E) as (replies & Ho & Hr).
  exists replies. cbn [outbox procs]. rewrite Ho, <- app_assoc. split; [reflexivity|exact Hr].
Qed.

(** The counters after a STEP. *)
Lemma step_calls (m : Msg) (fc nc fc' nc' : Z) (w w' : World Other) :
  step m (fc, nc) w = Done (fc', nc') w' ->
  fc' = wrap32 (fc + 1) /\ (nc' = nc \/ nc' = wrap32 (nc + 1)).
Proof.
  rewrite step_eq.
  destruct (each (step_local m) (procs w)) as [us ps|]; [|discriminate].
  cbn zeta.
  match goal with
  | |- context [send_fev ?i ?x] => destruct (send_fev_reply i x) as (sends & -> & _)
  end.
  intros E. inversion E. split; [reflexivity|].
  destruct (neighbor_decide ps =? 0); [left | right]; reflexivity.
Qed.

Lemma serve_counters (msgs : list Msg) :
  forall (fc nc fc' nc' : Z) (unread : list Msg) (w w' : World Other),
  Forall (fun m => msgID m = SETUP \/ msgID m = STEP) msgs ->
  0 <= fc -> 0 <= nc ->
  fc + Z.of_nat (length msgs) <= INT_MAX ->
  nc + Z.of_nat (length msgs) <= INT_MAX ->
  serve msgs (fc, nc) w = Done (fc', nc', unread) w' ->
  fc' = fc + Z.of_nat (length msgs) /\
  nc + count_setup msgs <= nc' <= nc + Z.of_nat (length msgs).
Proof.
  unfold count_setup.
  induction msgs as [|m msgs IH]; intros fc nc fc' nc' unread w w' Hall Hf Hn Hfm Hnm E.
  - cbn in E. inversion E; subst. cbn. lia.
  - apply Forall_cons in Hall as [Hm Hall]. cbn [length] in *.
    rewrite filter_cons.
    destruct Hm as [Hm|Hm].
    + rewrite serve_setup in E by exact Hm.
      destruct (setup m (fc, nc) w) as [[fc1 nc1] w1|] eqn:Es; [|discriminate].
      apply setup_outbox in Es as [Hc _]. cbn [fst snd] in Hc. inversion Hc; subst.
      rewrite !wrap32_id in E by (unfold INT_MAX in *; lia).
      specialize (IH (fc + 1) (nc + 1) fc' nc' unread w1 w' Hall
                    ltac:(lia) ltac:(lia) ltac:(lia) ltac:(lia) E).
      rewrite decide_True by exact Hm. cbn [length]. lia.
    + rewrite serve_step in E by exact Hm.
      destruct (step m (fc, nc) w) as [[fc1 nc1] w1|] eqn:Es; [|discriminate].
      apply step_calls in Es as [-> Hn1].
      rewrite wrap32_id in E by (unfold INT_MAX in *; lia).
      rewrite decide_False by (unfold SETUP, STEP in *; lia).
      destruct Hn1 as [->| ->].
      * specialize (IH (fc + 1) nc fc' nc' unread w1 w' Hall
                      ltac:(lia) ltac:(lia) ltac:(lia) ltac:(lia) E). lia.
      * rewrite wrap32_id in E by (unfold INT_MAX in *; lia).
        specialize (IH (fc + 1) (nc + 1) fc' nc' unread w1 w' Hall
                      ltac:(lia) ltac:(lia) ltac:(lia) ltac:(lia) E). lia.
Qed.

(** X7. The two counters the loop reports: when it ends normally on a
    stream of SETUP and STEP messages (no more than INT_MAX of them, the
    counters being C ints), the number of force evaluations is the number of
    messages, and the number of neighbour-list builds is at least the number
    of SETUP messages and at most the number of force evaluations. *)
Theorem X7_counters (msgs : list Msg) (forcecalls neighcalls : Z) (unread : list Msg)
    (w w' : World Other) :
  Forall (fun m => msgID m = SETUP \/ msgID m = STEP) msgs ->
  Z.of_nat (length msgs) <= INT_MAX ->
  loop msgs w = Done (forcecalls, neighcalls, unread) w' ->
  forcecalls = Z.of_nat (length msgs) /\
  count_setup msgs <= neighcalls <= forcecalls.
Proof.
  intros Hall Hlen. unfold loop. run_monad.
  destruct (serve msgs (0, 0) w) as [[[fc nc] u] w1|] eqn:E; [|discriminate].
  intros E'. inversion E'; subst. clear E'.
  destruct (serve_counters msgs 0 0 _ _ _ w w1 Hall ltac:(lia) ltac:(lia) ltac:(lia)
              ltac:(lia) E) as [-> Hn].
  lia.
Qed.

End Session.

(** X11. The constructor accepts a LAMMPS instance exactly when the box
    exists, the atom map and the atom ids are enabled, atom ids are 4 bytes,
    and the unit system is real or metal, which it records; otherwise it
    fails with the error of the first test that fails, in the order box, atom
    map, atom ids, id size, units. *)
Theorem X11_constructor (s : Settings.t) :
  (forall units,
     ServerMD_ctor s = Ok units <->
     Settings.box_exist s <> 0 /\ Settings.map_style s <> 0 /\
     Settings.tag_enable s <> 0 /\ Settings.sizeof_tagint s = 4 /\
     ((Settings.unit_style s = "real"%string /\ units = REAL) \/
      (Settings.unit_style s = "metal"%string /\ units = METAL))) /\
  (Settings.box_exist s = 0 ->
   ServerMD_ctor s = Err "Server command before simulation box is defined") /\
  (Settings.box_exist s <> 0 -> Settings.map_style s = 0 ->
   ServerMD_ctor s = Err "Server md requires atom map") /\
  (Settings.box_exist s <> 0 -> Settings.map_style s <> 0 ->
   Settings.tag_enable s = 0 ->
   ServerMD_ctor s = Err "Server md requires atom IDs") /\
  (Settings.box_exist s <> 0 -> Settings.map_style s <> 0 ->
   Settings.tag_enable s <> 0 -> Settings.sizeof_tagint s <> 4 ->
   ServerMD_ctor s = Err "Server md requires 4-byte atom IDs") /\
  (Settings.box_exist s <> 0 -> Settings.map_style s <> 0 ->
   Settings.tag_enable s <> 0 -> Settings.sizeof_tagint s = 4 ->
   Settings.unit_style s <> "real"%string -> Settings.unit_style s <> "metal"%string ->
   ServerMD_ctor s = Err "Units must be real or metal for server md").
Proof.
  unfold ServerMD_ctor.
  destruct (Z.eqb_spec (Settings.box_exist s) 0) as [E1|E1].
  { repeat split; try discriminate; try tauto. }
  destruct (Z.eqb_spec (Settings.map_style s) 0) as [E2|E2].
  { repeat split; try discriminate; try tauto. }
  destruct (Z.eqb_spec (Settings.tag_enable s) 0) as [E3|E3].
  { repeat split; try discriminate; try tauto. }
  destruct (Z.eqb_spec (Settings.sizeof_tagint s) 4) as [E4|E4]; cbn [negb].
  2:{ repeat split; try discriminate; try tauto. }
  destruct (String.eqb_spec (Settings.unit_style s) "real") as [E5|E5].
  { split; [|tauto]. intros units. split.
    - intros E. inversion E. tauto.
    - intros (_ & _ & _ & _ & [[_ ->]|[Hm _]]); [reflexivity|].
      rewrite E5 in Hm. discriminate. }
  destruct (String.eqb_spec (Settings.unit_style s) "metal") as [E6|E6].
  { split; [|tauto]. intros units. split.
    - intros E. inversion E. tauto.
    - intros (_ & _ & _ & _ & [[Hr _]|[_ ->]]); [contradiction | reflexivity]. }
  split; [|tauto]. intros units. split; [discriminate|].
  intros (_ & _ & _ & _ & [[Hr _]|[Hm _]]); contradiction.
Qed.

Section Atoms.

Context {Other : Type} `{!Lammps Other}.

Lemma concat_owned_intro (coords : list double) (n : Z) (ps : list (Proc Other))
    (q : Proc Other) (x : Z) :
  q ∈ ps -> x ∈ owned_ids coords n q -> x ∈ concat (map (owned_ids coords n) ps).
Proof.
  induction ps as [|p ps IH]; intros Hq Hx; [inversion Hq|].
  cbn [map concat]. apply elem_of_app.
  apply elem_of_cons in Hq as [->|Hq]; [left; exact Hx | right; apply IH; assumption].
Qed.

(** After the atom loop of SETUP, on every process. *)
Lemma setup_scattered (m : Msg) (ps0 ps : list (Proc Other)) (ns : list Z) :
  each (setup_local m) ps0 = Done ns ps ->
  Forall (fun p => local_ids p = owned_ids (m_coords m) (m_natoms m) p) ps /\
  Forall (fun p => Atom.nlocal (atom p) = Z.of_nat (length (local_ids p))) ps.
Proof.
  intros E.
  pose proof (each_done_post (setup_local m)
                (fun a p' => True /\
                   (local_ids p' = owned_ids (m_coords m) (m_natoms m) p' /\
                    Atom.nlocal (atom p') = Z.of_nat (length (local_ids p'))))
                ps0) as Hpost.
  specialize (Hpost ltac:(intros p a p' Hp;
                          destruct (setup_local_done m p p' a Hp) as (-> & _ & H1 & H2);
                          repeat split; assumption) ns ps E).
  apply Forall2_both in Hpost as [_ Hps].
  split; (eapply Forall_impl; [exact Hps|]); intros p [H1 H2]; assumption.
Qed.

(** X10. With an ownership test under which no atom has two owners, the
    count test of SETUP finds every gap: after the atom loop has run on every
    process, the sum of the local counts is NATOMS exactly when every atom of
    the message is owned by some process of the group.  (NATOMS is an int:
    0 <= NATOMS <= INT_MAX.) *)
Theorem X10_count_test_finds_gaps (m : Msg) (w : World Other)
    (ns : list Z) (ps : list (Proc Other)) :
  each (setup_local m) (procs w) = Done ns ps ->
  0 <= m_natoms m <= INT_MAX ->
  (forall i, 0 <= i < m_natoms m -> one_owner_at_most (m_coords m) ps i) ->
  (wrap32 (isum (map (fun p => Atom.nlocal (atom p)) ps)) = m_natoms m <->
   forall i, 0 <= i < m_natoms m ->
     exists p, p ∈ ps /\ owns (m_coords m) p i = true).
Proof.
  intros E Hn Hone. destruct (setup_scattered m _ _ _ E) as [Hids Hnl].
  rewrite (isum_nlocal ps Hnl), (concat_local_owned (m_coords m) (m_natoms m) ps Hids).
  set (L := concat (map (owned_ids (m_coords m) (m_natoms m)) ps)).
  split.
  - intros Hc i Hi.
    pose proof (owned_partition (m_coords m) (m_natoms m) ps Hone Hc) as Hperm.
    assert (i + 1 ∈ L) as Hin.
    { fold L in Hperm. rewrite Hperm. apply elem_of_seqZ. lia. }
    apply concat_owned_elem in Hin as (q & Hq & Hx).
    apply owned_ids_elem in Hx as [_ Ho]. replace (i + 1 - 1) with i in Ho by lia.
    eauto.
  - intros Hall.
    assert (Hperm : L ≡ₚ seqZ 1 (m_natoms m)).
    { apply NoDup_Permutation.
      - apply concat_owned_NoDup, Hone.
      - apply NoDup_seqZ.
      - intros x. split.
        + intros Hx. apply concat_owned_elem in Hx as (q & _ & Hx).
          apply owned_ids_elem in Hx as [Hx _]. apply elem_of_seqZ. lia.
        + intros Hx. apply elem_of_seqZ in Hx.
          destruct (Hall (x - 1) ltac:(lia)) as (q & Hq & Ho).
          apply (concat_owned_intro _ _ _ q); [exact Hq|].
          apply owned_ids_elem. split; [lia | exact Ho]. }
    apply Permutation_length in Hperm. rewrite length_seqZ in Hperm.
    rewrite Hperm, Z2Nat.id by lia. apply wrap32_id. unfold INT_MAX in *. lia.
Qed.

(** The charge array through the atom loop of a SETUP that carries CHARGE. *)
Lemma added_atom_q (a : SetupArgs.t) (q : Proc Other) (nlocal i : Z) charge :
  SetupArgs.charge a = Some charge ->
  Atom.q (added_atom a q nlocal i) = aset 0%float nlocal (rdf charge i) (Atom.q (atom q)).
Proof. intros Hc. unfold added_atom. rewrite Hc. reflexivity. Qed.

Lemma scatter_loop_q (a : SetupArgs.t) (charge : list double) (idx : list Z) :
  SetupArgs.charge a = Some charge ->
  forall (q : Proc Other) (k : nat),
  (k <= length (Atom.q (atom q)))%nat ->
  let own := fun i => owns (SetupArgs.coords a) q i in
  let r := fold_left (scatter_step a) idx (q, Z.of_nat k) in
  let k' := (k + length (filter own idx))%nat in
  (k' <= length (Atom.q (atom (fst r))))%nat /\
  take k' (Atom.q (atom (fst r)))
  = take k (Atom.q (atom q)) ++ ((fun i => rdf charge i) <$> filter own idx).
Proof.
  intros Hc. induction idx as [|i idx IH]; intros q k Hlen; cbn zeta.
  - cbn. rewrite Nat.add_0_r, app_nil_r. split; [assumption | reflexivity].
  - cbn [fold_left]. rewrite filter_cons, scatter_step_eq.
    destruct (owns (SetupArgs.coords a) q i) eqn:Eo.
    + rewrite decide_True by exact I.
      replace (Z.of_nat k + 1) with (Z.of_nat (S k)) by lia.
      specialize (IH (set_atom (added_atom a q (Z.of_nat k) i) q) (S k)). cbn zeta in IH.
      change (fun i0 => owns (SetupArgs.coords a)
                          (set_atom (added_atom a q (Z.of_nat k) i) q) i0)
        with (fun i0 => owns (SetupArgs.coords a) q i0) in IH.
      destruct IH as (Hl & Ht).
      * cbn. rewrite (added_atom_q _ _ _ _ _ Hc). apply aset_length, Hlen.
      * cbn [length fmap list_fmap].
        rewrite <- plus_n_Sm, <- plus_Sn_m.
        split; [exact Hl|].
        rewrite Ht. cbn [atom set_atom].
        rewrite (added_atom_q _ _ _ _ _ Hc), aset_take by exact Hlen.
        rewrite <- app_assoc. reflexivity.
    + rewrite decide_False by exact id.
      apply (IH q k Hlen).
Qed.

(** X12. A SETUP that carries CHARGE gives every atom its own charge: after
    the SETUP has run on a process, the atom at local index k, whose id is
    the k-th tag of the process, has the charge at index id-1 of the CHARGE
    field, and its id is one of 1..NATOMS. *)
Theorem X12_charges_follow_ids (m : Msg) (p p' : Proc Other) (n : Z) (k : nat) (id : Z) :
  setup_local m p = Done n p' ->
  CHARGE ∈ fieldID m ->
  local_ids p' !! k = Some id ->
  1 <= id <= m_natoms m /\
  nth k (Atom.q (atom p')) 0%float = rdf (m_charge m) (id - 1).
Proof.
  intros E Hch Hk.
  destruct (setup_local_done m p p' n E) as (-> & _ & Hids & Hnl).
  assert (Hr : 1 <= id <= m_natoms m).
  { apply list_elem_of_lookup_2 in Hk. rewrite Hids in Hk.
    apply owned_ids_elem in Hk. tauto. }
  split; [exact Hr|].
  rewrite setup_local_eq in E.
  destruct (setup_validate (domain p) (atom p) m) as [args|] eqn:Ev; [|discriminate].
  apply setup_validate_iff in Ev as [_ ->].
  inversion E as [[Hp]]. clear E.
  set (a := setup_args_of m) in *.
  set (q0 := clear_atoms (setup_box a p)) in *.
  assert (Hca : SetupArgs.charge a = Some (m_charge m)).
  { unfold a, setup_args_of. cbn. rewrite (bool_decide_eq_true_2 _ Hch). reflexivity. }
  pose proof (scatter_loop_q a (m_charge m) (seqZ 0 (SetupArgs.natoms a)) Hca q0 0
                (Nat.le_0_l _)) as [_ Hq].
  pose proof (scatter_loop a (seqZ 0 (SetupArgs.natoms a)) q0 0 eq_refl (Nat.le_0_l _))
    as (_ & _ & _ & Hn' & _ & Ht).
  cbn zeta in Hq, Ht, Hn'. change (Z.of_nat 0) with 0 in Hq, Ht, Hn'.
  fold (scatter a q0) in Hq, Ht, Hn'. rewrite Hp in Hq, Ht, Hn'.
  rewrite take_0 in Hq. rewrite take_0 in Ht. cbn [app Nat.add] in Hq, Ht, Hn'.
  set (F := filter (fun i => owns (SetupArgs.coords a) q0 i) (seqZ 0 (SetupArgs.natoms a)))
    in *.
  assert (Hlid : local_ids p' = (fun i => i + 1) <$> F).
  { unfold local_ids. rewrite Hn', Nat2Z.id. exact Ht. }
  rewrite Hlid, list_lookup_fmap in Hk.
  destruct (F !! k) as [i|] eqn:Ei; [|discriminate].
  cbn in Hk. inversion Hk; subst id. replace (i + 1 - 1) with i by lia.
  assert (Hqk : take (length F) (Atom.q (atom p')) !! k = Some (rdf (m_charge m) i)).
  { rewrite Hq, list_lookup_fmap, Ei. reflexivity. }
  rewrite nth_lookup.
  rewrite lookup_take_lt in Hqk by (apply (lookup_lt_Some _ _ _ Ei)).
  rewrite Hp, Hqk. reflexivity.
Qed.

End Atoms.

(** * The further properties on concrete sessions *)

Import Cases.


(** X2, run: [setup3] with its fields listed in another order, COORDS
    twice, ends well on rank 1 as [setup3] does. *)
Lemma X2_witness :
  exists p', setup_local (with_fieldID setup3 fields3_shuffled) (proc0 1) = Done 3 p'.
Proof.
  eexists.
  refine (proj2 (proj1 (X2_field_order_irrelevant setup3 fields3_shuffled (proc0 1) _) 3 _) _).
  - intros fid. unfold fields3_shuffled. cbn [fieldID setup3].
    rewrite !elem_of_cons, !elem_of_nil. tauto.
  - vm_compute. reflexivity.
Defined.

(** X3, run: a STEP with a TYPES field, a STEP without COORDS, and [step3]. *)
Lemma X3_witness :
  step_local step_types (proc0 0) = Fatal "Server md step field unknown" (proc0 0) /\
  step_local step_box_only (proc0 0)
  = Fatal "Required server md step field not received" (proc0 0) /\
  step_local step3 proc3 = Done tt (fst (remap coords3 proc3)).
Proof.
  split; [|split].
  - refine (proj1 (X3_step_decision step_types (proc0 0)) _).
    intros H. apply Forall_cons in H as [_ H].
    apply Forall_cons in H as [[H|[H|H]] _]; discriminate H.
  - refine (proj1 (proj2 (X3_step_decision step_box_only (proc0 0))) _ _).
    + constructor; [right; left; reflexivity|].
      constructor; [right; right; reflexivity|]. constructor.
    + intros H. apply elem_of_cons in H as [H|H]; [discriminate H|].
      apply elem_of_cons in H as [H|H]; [discriminate H | inversion H].
  - refine (proj2 (proj2 (proj2 (proj2 (X3_step_decision step3 proc3)))) _ _ _).
    + constructor; [left; reflexivity | constructor].
    + constructor.
    + left. intros H. apply elem_of_cons in H as [H|H]; [discriminate H | inversion H].
Defined.

(** X4, run: [setup3] is answered, then a SETUP with a negative atom count
    ends the session; the STEP after it is not read. *)
Lemma X4_witness :
  loop ([setup3] ++ setup_neg :: [step3]) world0
  = Fatal "Required server md setup field not received" world3 /\
  outbox world3 = outbox world3.
Proof.
  apply (X4_failed_message_ends_session [setup3] setup_neg [step3] (1, 1) world0 world3 world3).
  - constructor; [left; reflexivity | constructor].
  - vm_compute. reflexivity.
  - left. split; [reflexivity|]. vm_compute. reflexivity.
Defined.

(** X5, run: [setup3] is answered, then a message with id 7. *)
Lemma X5_witness :
  loop ([setup3] ++ msg7 :: [step3]) world0
  = Fatal "Server MD received unrecognized message" world3.
Proof.
  apply (X5_unrecognized_message [setup3] msg7 [step3] (1, 1) world0 world3).
  - constructor; [left; reflexivity | constructor].
  - vm_compute. reflexivity.
  - cbn. lia.
  - discriminate.
  - discriminate.
Defined.

(** X6, run: a SETUP and a STEP; the replies are a SETUP reply, a STEP reply
    and the closing message. *)
Lemma X6_witness :
  exists replies,
    outbox closed3
    = outbox world0 ++ replies ++ [map (fun _ => mkSend 0 0 []) (procs closed3)] /\
    Forall2 (fun m sends => Forall (is_reply (msgID m)) sends) [setup3; step3] replies.
Proof.
  apply (X6_replies_in_order [setup3; step3] (2, 1) [] world0 closed3).
  - constructor; [left; reflexivity|]. constructor; [right; reflexivity | constructor].
  - vm_compute. reflexivity.
Defined.

(** X7, run: a SETUP and a STEP: two force evaluations and one build. *)
Lemma X7_witness :
  2 = Z.of_nat (length [setup3; step3]) /\ count_setup [setup3; step3] <= 1 <= 2.
Proof.
  apply (X7_counters [setup3; step3] 2 1 [] world0 closed3).
  - constructor; [left; reflexivity|]. constructor; [right; reflexivity | constructor].
  - cbn. unfold INT_MAX. lia.
  - vm_compute. reflexivity.
Defined.

(** X8, run: rank 0 holds atom 2 at local index 0; a STEP gives it the second
    coordinate of COORDS. *)
Lemma X8_witness :
  atom_x (atom (fst (remap coords3 proc3))) (atom_map (atom proc3) 2)
  = closest_image (domain proc3) (other proc3)
      (atom_x (atom proc3) (atom_map (atom proc3) 2)) (at3 coords3 (3 * (2 - 1))).
Proof.
  apply (X8_remap_places coords3 proc3 2).
  - vm_compute. split; discriminate.
  - vm_compute. discriminate.
  - vm_compute. split; [discriminate | reflexivity].
  - intros id Hid. change (Atom.natoms (atom proc3)) with 3 in Hid.
    assert (id = 1 \/ id = 2 \/ id = 3) as [->|[->| ->]] by lia;
      vm_compute; intros H; try reflexivity; discriminate H.
Defined.

(** X9, run: rank 0 owns one atom; the position at local index 5 is not
    touched by a STEP. *)
Lemma X9_witness :
  atom_x (atom (fst (remap coords3 proc3))) 5 = atom_x (atom proc3) 5.
Proof.
  refine (proj2 (X9_remap_frame coords3 proc3) 5 _).
  intros id _ [_ H]. change (Atom.nlocal (atom proc3)) with 1 in H. lia.
Defined.

(** X10, run: [setup3] on the two processes: the counts add up to 3, so the
    atom at index 1 has an owner. *)
Lemma X10_witness :
  exists p, p ∈ snd scattered3 /\ owns coords3 p 1 = true.
Proof.
  refine (proj1 (X10_count_test_finds_gaps setup3 world0 (fst scattered3) (snd scattered3)
                   _ _ _) _ 1 _).
  - vm_compute. reflexivity.
  - cbn. unfold INT_MAX. lia.
  - intros i Hi.
    assert (i = 0 \/ i = 1 \/ i = 2) as [->|[->| ->]] by (cbn in Hi; lia);
      vm_compute; repeat constructor.
  - vm_compute. reflexivity.
  - cbn. lia.
Defined.

(** X11, run: a server in metal units. *)
Lemma X11_witness : ServerMD_ctor settings_metal = Ok METAL.
Proof.
  refine (proj2 (proj1 (X11_constructor settings_metal) METAL) _).
  repeat split; try discriminate. right. split; reflexivity.
Defined.

(** X12, run: rank 1 owns the atoms 1 and 3; its second atom has the third
    charge of the message. *)
Lemma X12_witness :
  1 <= 3 <= m_natoms setup3q /\
  nth 1 (Atom.q (atom proc3q)) 0%float = rdf (m_charge setup3q) (3 - 1).
Proof.
  apply (X12_charges_follow_ids setup3q (proc0q 1) proc3q 3 1%nat 3).
  - vm_compute. reflexivity.
  - repeat constructor.
  - vm_compute. reflexivity.
Defined.
